(** * The Spades table engine of bux-spades.pro: games router and socket handlers

    A shallow embedding of the server's games route (the [router.post]
    handlers, the [make_bid] and [play_card] socket handlers, the trick
    and scoring helpers) together with the two client helpers that decide
    which cards may be played ([getPlayableCards]) and which endpoint seats
    a bot ([handleInviteBot]).

    Conventions of the embedding:
    - a JavaScript array indexed by seat is a [list], read with [!!] and
      written with [<[ i := x ]>]; every seat index the handlers write is
      first checked to be in [0..3], so the silent out-of-range behaviour
      of the list update is never exercised;
    - [undefined]/[null] fields are [option]s, [x || 0] and [x ?? 0] are
      [default 0 x];
    - a handler is a function from the game (and the request) to the
      response and the game as the handler leaves it;
    - randomness ([Math.random], [uuidv4]) and the user database are
      arguments of the operation that consults them. *)

From Stdlib Require Import ZArith Lia.
From stdpp Require Import base option list strings pretty.

Open Scope string_scope.
Open Scope list_scope.

(** ** Cards *)

(** The suits of the server's [SUITS]: ['S'], ['H'], ['D'], ['C']. *)
Inductive Suit := Spades | Hearts | Diamonds | Clubs.

(** The ranks of [RANKS], ['2'] up to ['A']. *)
Inductive Rank :=
| R2 | R3 | R4 | R5 | R6 | R7 | R8 | R9 | R10 | RJ | RQ | RK | RA.

#[global] Instance Suit_eq_dec : EqDecision Suit.
Proof. solve_decision. Defined.

#[global] Instance Rank_eq_dec : EqDecision Rank.
Proof. solve_decision. Defined.

(** A card; [playerIndex] is the optional tag that [play_card] adds when
    the card enters the current trick. *)
Record Card := mkCard {
  suit : Suit;
  rank : Rank;
  playerIndex : option nat
}.

#[global] Instance Card_eq_dec : EqDecision Card.
Proof. solve_decision. Defined.

Definition SUITS : list Suit := [Spades; Hearts; Diamonds; Clubs].
Definition RANKS : list Rank :=
  [R2; R3; R4; R5; R6; R7; R8; R9; R10; RJ; RQ; RK; RA].

Definition getCardValue (r : Rank) : Z :=
  match r with
  | R2 => 2 | R3 => 3 | R4 => 4 | R5 => 5 | R6 => 6 | R7 => 7 | R8 => 8
  | R9 => 9 | R10 => 10 | RJ => 11 | RQ => 12 | RK => 13 | RA => 14
  end%Z.

(** [createDeck]: for each suit, for each rank, push the card. *)
Definition createDeck : list Card :=
  s ← SUITS; r ← RANKS; [mkCard s r None].

(** Thrown exceptions and the value otherwise. *)
Inductive Res (A : Type) :=
| Ok (a : A)
| Throw (msg : string).
Arguments Ok {A} a.
Arguments Throw {A} msg.

(** ** Trick resolution *)

(** The test inside the loop of [determineTrickWinner]. *)
Definition takesOver (card winningCard : Card) : bool :=
  (bool_decide (suit card = Spades) && negb (bool_decide (suit winningCard = Spades)))
  || (bool_decide (suit card = suit winningCard)
      && (getCardValue (rank winningCard) <? getCardValue (rank card))%Z).

(** The loop of [determineTrickWinner], started from [winningCard]. *)
Definition winningCardFrom (winningCard : Card) (trick : list Card) : Card :=
  foldl (fun w card => if takesOver card w then card else w) winningCard trick.

Definition determineTrickWinner (trick : list Card) : Res nat :=
  match trick with
  | [] => Throw "Cannot determine winner of empty trick"
  | first :: _ => Ok (default 0 (playerIndex (winningCardFrom first trick)))
  end.

(** *** The highest card of a suit in a trick *)

Definition spadePlayed (trick : list Card) : Prop :=
  ∃ c, c ∈ trick ∧ suit c = Spades.

(** [w] was played in [trick], is of suit [s], and no card of suit [s] in
    the trick has a higher rank; a card of that suit with the same rank is
    the same card of the deck. *)
Definition highestOfSuit (s : Suit) (trick : list Card) (w : Card) : Prop :=
  w ∈ trick ∧ suit w = s ∧
  ∀ c, c ∈ trick → suit c = s →
       (getCardValue (rank c) <= getCardValue (rank w))%Z ∧
       (getCardValue (rank c) = getCardValue (rank w) → rank c = rank w).

(** The two tricks of the specification's example, seats 0 to 3 in play
    order. *)
Definition exampleClubsTrick : list Card :=
  [mkCard Clubs R4 (Some 0); mkCard Clubs R9 (Some 1);
   mkCard Spades RK (Some 2); mkCard Clubs R2 (Some 3)].

Definition exampleDiamondsTrick : list Card :=
  [mkCard Diamonds R10 (Some 0); mkCard Diamonds R3 (Some 1);
   mkCard Diamonds RJ (Some 2); mkCard Diamonds R2 (Some 3)].


(** ** Players, tricks and the game aggregate *)

Inductive PlayerType := human | bot.

#[global] Instance PlayerType_eq_dec : EqDecision PlayerType.
Proof. solve_decision. Defined.

Record GamePlayer := mkPlayer {
  id : string;
  username : string;
  avatar : string;
  type : PlayerType;
  position : option Z
}.

Inductive Status := WAITING | BIDDING | PLAYING | COMPLETED.

#[global] Instance Status_eq_dec : EqDecision Status.
Proof. solve_decision. Defined.

(** An entry of [game.play.tricks]. *)
Record Trick := mkTrick {
  cards : list Card;
  winnerIndex : nat
}.

(** [game.bidding]; [bids] holds [null] ([None]) until the seat has bid.
    The fields [currentPlayer] and [nilBids] are written once by [start]
    and read by no handler; they are left out. *)
Record Bidding := mkBidding {
  currentBidderIndex : nat;
  bids : list (option Z)
}.

(** [game.play] (without the write-only [currentPlayer]). *)
Record Play := mkPlay {
  currentPlayerIndex : nat;
  currentTrick : list Card;
  tricks : list Trick;
  trickNumber : nat
}.

(** The fields of [Game] that the handlers read or write. *)
Record Game := mkGame {
  players : list (option GamePlayer);
  spectators : list GamePlayer;
  status : Status;
  maxPoints : Z;
  minPoints : Z;
  buyIn : Z;
  isBotGame : bool;
  dealerIndex : option nat;
  hands : option (list (list Card));
  bidding : option Bidding;
  play : option Play;
  team1TotalScore : option Z;
  team2TotalScore : option Z;
  team1Bags : option Z;
  team2Bags : option Z
}.

(** Field assignments [game.f = v]. *)
Definition setPlayers (v : list (option GamePlayer)) (g : Game) : Game :=
  mkGame v (spectators g) (status g) (maxPoints g) (minPoints g) (buyIn g)
    (isBotGame g) (dealerIndex g) (hands g) (bidding g) (play g)
    (team1TotalScore g) (team2TotalScore g) (team1Bags g) (team2Bags g).

Definition setSpectators (v : list GamePlayer) (g : Game) : Game :=
  mkGame (players g) v (status g) (maxPoints g) (minPoints g) (buyIn g)
    (isBotGame g) (dealerIndex g) (hands g) (bidding g) (play g)
    (team1TotalScore g) (team2TotalScore g) (team1Bags g) (team2Bags g).

Definition setStatus (v : Status) (g : Game) : Game :=
  mkGame (players g) (spectators g) v (maxPoints g) (minPoints g) (buyIn g)
    (isBotGame g) (dealerIndex g) (hands g) (bidding g) (play g)
    (team1TotalScore g) (team2TotalScore g) (team1Bags g) (team2Bags g).

Definition setIsBotGame (v : bool) (g : Game) : Game :=
  mkGame (players g) (spectators g) (status g) (maxPoints g) (minPoints g)
    (buyIn g) v (dealerIndex g) (hands g) (bidding g) (play g)
    (team1TotalScore g) (team2TotalScore g) (team1Bags g) (team2Bags g).

Definition setDealerIndex (v : option nat) (g : Game) : Game :=
  mkGame (players g) (spectators g) (status g) (maxPoints g) (minPoints g)
    (buyIn g) (isBotGame g) v (hands g) (bidding g) (play g)
    (team1TotalScore g) (team2TotalScore g) (team1Bags g) (team2Bags g).

Definition setHands (v : option (list (list Card))) (g : Game) : Game :=
  mkGame (players g) (spectators g) (status g) (maxPoints g) (minPoints g)
    (buyIn g) (isBotGame g) (dealerIndex g) v (bidding g) (play g)
    (team1TotalScore g) (team2TotalScore g) (team1Bags g) (team2Bags g).

Definition setBidding (v : option Bidding) (g : Game) : Game :=
  mkGame (players g) (spectators g) (status g) (maxPoints g) (minPoints g)
    (buyIn g) (isBotGame g) (dealerIndex g) (hands g) v (play g)
    (team1TotalScore g) (team2TotalScore g) (team1Bags g) (team2Bags g).

Definition setPlay (v : option Play) (g : Game) : Game :=
  mkGame (players g) (spectators g) (status g) (maxPoints g) (minPoints g)
    (buyIn g) (isBotGame g) (dealerIndex g) (hands g) (bidding g) v
    (team1TotalScore g) (team2TotalScore g) (team1Bags g) (team2Bags g).

Definition setTotals (s1 s2 b1 b2 : option Z) (g : Game) : Game :=
  mkGame (players g) (spectators g) (status g) (maxPoints g) (minPoints g)
    (buyIn g) (isBotGame g) (dealerIndex g) (hands g) (bidding g) (play g)
    s1 s2 b1 b2.

(** What an HTTP handler sends: [res.json(game)] or a status with an
    error; [Raised] is an exception that leaves the handler. *)
Inductive Response :=
| Sent (g : Game)
| Failed (code : nat) (error : string)
| Raised (msg : string).

(** What a socket handler does besides changing the game: return
    silently, emit ['error'] to the caller, or broadcast events. *)
Inductive Reply :=
| Ignored
| Rejected (message : string)
| Emitted (events : list string).

(** ** Array helpers *)

(** [arr.findIndex(p)], with [-1] as [None]. *)
Fixpoint findIndex {A : Type} (p : A → bool) (l : list A) : option nat :=
  match l with
  | [] => None
  | x :: l' => if p x then Some 0 else S <$> findIndex p l'
  end.

(** The test [p && p.id === userId] on a seat. *)
Definition hasId (userId : string) (p : option GamePlayer) : bool :=
  match p with
  | Some q => bool_decide (id q = userId)
  | None => false
  end.

(** The test [p && p.type === t] on a seat. *)
Definition hasType (t : PlayerType) (p : option GamePlayer) : bool :=
  match p with
  | Some q => bool_decide (type q = t)
  | None => false
  end.

(** [players[i]] when it is a player ([null] and [undefined] are [None]). *)
Definition seatAt (ps : list (option GamePlayer)) (i : nat) : option GamePlayer :=
  match ps !! i with
  | Some (Some p) => Some p
  | _ => None
  end.

(** [s || d] on strings. *)
Definition orElse (s d : string) : string :=
  if bool_decide (s = "") then d else s.

(** ** Creating and joining a game *)

(** The fields of [req.body] that [POST /] copies into the game. *)
Record Settings := mkSettings {
  creatorId : string;
  creatorName : string;
  creatorImage : string;
  settingsMaxPoints : Z;
  settingsMinPoints : Z;
  settingsBuyIn : Z
}.

Definition createGame (settings : Settings) : Game :=
  let creatorPlayer :=
    mkPlayer (creatorId settings) (creatorName settings)
             (creatorImage settings) human None in
  mkGame [Some creatorPlayer; None; None; None] [] WAITING
    (settingsMaxPoints settings) (settingsMinPoints settings)
    (settingsBuyIn settings) false None None None None None None None None.

(** Outcome of [prisma.user.findUnique]. *)
Inductive UserLookup :=
| LookupFails
| NoSuchUser
| UserCoins (coins : Z).

(** [POST /:id/join]; [seat] is [None] when [req.body.seat] is not a
    number. *)
Definition join (g : Game) (seat : option Z) (playerId name image : string)
    (db : UserLookup) : Response * Game :=
  let player :=
    mkPlayer playerId (orElse name "Unknown") (orElse image "/default-pfp.jpg")
             human seat in
  if existsb (hasId playerId) (players g) then
    (Failed 400 "Player already joined", g)
  else
    match db with
    | LookupFails => (Failed 500 "Failed to check coin balance", g)
    | NoSuchUser => (Failed 404 "User not found", g)
    | UserCoins coins =>
        if (coins <? buyIn g)%Z then
          (Failed 400 "Not enough coins to join this game", g)
        else
          match seat with
          | Some requestedSeat =>
              if (0 <=? requestedSeat)%Z && (requestedSeat <? 4)%Z then
                match players g !! Z.to_nat requestedSeat with
                | Some None =>
                    let g' := setPlayers
                                (<[Z.to_nat requestedSeat := Some player]> (players g)) g in
                    (Sent g', g')
                | _ => (Failed 400 "Seat is already taken", g)
                end
              else (Failed 400 "Invalid seat selection", g)
          | None => (Failed 400 "Invalid seat selection", g)
          end
    end.

(** [POST /:id/spectate]; an empty [userId] is a missing one. *)
Definition spectate (g : Game) (userId name image : string) : Response * Game :=
  if bool_decide (userId = "") then (Failed 400 "Missing user id", g)
  else if existsb (fun s => bool_decide (id s = userId)) (spectators g) then
    (Failed 400 "Already spectating", g)
  else if existsb (hasId userId) (players g) then
    (Failed 400 "Already joined as player", g)
  else
    let s := mkPlayer userId (orElse name "Unknown")
                      (orElse image "/default-pfp.jpg") human None in
    let g' := setSpectators (spectators g ++ [s]) g in
    (Sent g', g').

(** [POST /:id/leave]. *)
Definition leave (g : Game) (userId : string) : Response * Game :=
  let g1 :=
    match findIndex (hasId userId) (players g) with
    | Some playerIdx => setPlayers (<[playerIdx := None]> (players g)) g
    | None => g
    end in
  let g2 :=
    match findIndex (fun s => bool_decide (id s = userId)) (spectators g1) with
    | Some specIdx => setSpectators (delete specIdx (spectators g1)) g1
    | None => g1
    end in
  (Sent g2, g2).

(** The test [game.players.some(p => p && p.type === 'human')]. *)
Definition hasHumanPlayers (g : Game) : bool :=
  existsb (hasType human) (players g).

(** The socket event [leave_game] for an authenticated caller whose game
    is in the store. The seat of the user, if any, is emptied and the
    change broadcast; when no human is left on a seat the handler then
    takes the game out of the store and broadcasts the list of games once
    more. *)
Definition leave_game (g : Game) (userId : string) : Reply * Game :=
  let found := findIndex (hasId userId) (players g) in
  let g1 :=
    match found with
    | Some playerIdx => setPlayers (<[playerIdx := None]> (players g)) g
    | None => g
    end in
  let events :=
    (if bool_decide (is_Some found) then ["game_update"; "games_updated"] else [])
    ++ (if hasHumanPlayers g1 then [] else ["games_updated"]) in
  (match events with [] => Ignored | _ => Emitted events end, g1).

(** Whether [leave_game] takes the game out of the store
    ([games.splice(gameIdx, 1)]). *)
Definition leave_game_removes (g : Game) (userId : string) : bool :=
  negb (hasHumanPlayers (leave_game g userId).2).

(** ** Seating and removing bots *)

Definition botPlayer (seatIndex : Z) (uuid : string) : GamePlayer :=
  mkPlayer ("bot-" +:+ uuid) ("Bot " +:+ pretty (seatIndex + 1)%Z)
           "/bot-avatar.jpg" bot (Some seatIndex).

(** The test [seatIndex < 0 || seatIndex > 3 || game.players[seatIndex]]. *)
Definition seatRefused (g : Game) (seatIndex : Z) : bool :=
  (seatIndex <? 0)%Z || (3 <? seatIndex)%Z
  || bool_decide (is_Some (seatAt (players g) (Z.to_nat seatIndex))).

(** [requesterId] is the field of that name in [req.body]: [None] when the
    body has none ([undefined]).

    The host test [game.players[0]?.id !== requesterId] of the two
    handlers that serve before the game: the identity on seat 0, or
    [undefined] when the seat is empty, is compared with the requester's,
    so a body without [requesterId] passes when seat 0 is empty. *)
Definition notHost (g : Game) (requesterId : option string) : bool :=
  bool_decide (id <$> seatAt (players g) 0 ≠ requesterId).

(** The partner test [!game.players[i] || game.players[i]?.id !==
    requesterId] of the two handlers that serve after the start: an
    empty seat refuses whoever asks. *)
Definition notHeldBy (g : Game) (i : nat) (requesterId : option string) : bool :=
  match seatAt (players g) i with
  | Some p => negb (bool_decide (Some (id p) = requesterId))
  | None => true
  end.

(** [POST /:id/invite-bot] (host only, before the game starts). *)
Definition inviteBot (g : Game) (seatIndex : Z) (requesterId : option string)
    (uuid : string) : Response * Game :=
  if negb (bool_decide (status g = WAITING)) then
    (Failed 400 "Game already started", g)
  else if notHost g requesterId then
    (Failed 403 "Only host can invite bots", g)
  else if seatRefused g seatIndex then (Failed 400 "Invalid seat", g)
  else
    let ps := <[Z.to_nat seatIndex := Some (botPlayer seatIndex uuid)]> (players g) in
    let g' := setIsBotGame (existsb (hasType bot) ps) (setPlayers ps g) in
    (Sent g', g').

(** [POST /:id/invite-bot-midgame] (partner only). *)
Definition inviteBotMidgame (g : Game) (seatIndex : Z)
    (requesterId : option string) (uuid : string) : Response * Game :=
  if bool_decide (status g = WAITING) then
    (Failed 400 "Game has not started", g)
  else if seatRefused g seatIndex then (Failed 400 "Seat is not empty", g)
  else
    let partnerSeat := (Z.to_nat seatIndex + 2) mod 4 in
    if notHeldBy g partnerSeat requesterId then
      (Failed 403 "Only the partner can invite a bot for this seat", g)
    else
      let g' := setPlayers
                  (<[Z.to_nat seatIndex := Some (botPlayer seatIndex uuid)]> (players g)) g in
      (Sent g', g').

(** The test of the two remove handlers: out of range, empty, or not a
    bot. *)
Definition notABot (g : Game) (seatIndex : Z) : bool :=
  (seatIndex <? 0)%Z || (3 <? seatIndex)%Z
  || negb (hasType bot (seatAt (players g) (Z.to_nat seatIndex))).

(** [POST /:id/remove-bot]. *)
Definition removeBot (g : Game) (seatIndex : Z) (requesterId : option string)
    : Response * Game :=
  if negb (bool_decide (status g = WAITING)) then
    (Failed 400 "Game already started", g)
  else if notHost g requesterId then
    (Failed 403 "Only host can remove bots", g)
  else if notABot g seatIndex then (Failed 400 "Invalid seat or not a bot", g)
  else
    let g' := setPlayers (<[Z.to_nat seatIndex := None]> (players g)) g in
    (Sent g', g').

(** [POST /:id/remove-bot-midgame]. *)
Definition removeBotMidgame (g : Game) (seatIndex : Z)
    (requesterId : option string) : Response * Game :=
  if bool_decide (status g = WAITING) then
    (Failed 400 "Game has not started", g)
  else if notABot g seatIndex then (Failed 400 "Invalid seat or not a bot", g)
  else
    let partnerSeat := (Z.to_nat seatIndex + 2) mod 4 in
    if notHeldBy g partnerSeat requesterId then
      (Failed 403 "Only the partner can remove a bot for this seat", g)
    else
      let g' := setPlayers (<[Z.to_nat seatIndex := None]> (players g)) g in
      (Sent g', g').

(** ** Dealer, shuffle and deal *)

(** One exchange [[deck[i], deck[j]] = [deck[j], deck[i]]]. *)
Definition swap (deck : list Card) (i j : nat) : list Card :=
  match deck !! i, deck !! j with
  | Some a, Some b => <[j := a]> (<[i := b]> deck)
  | _, _ => deck
  end.

(** The loop of [shuffle] from index [i] down to 1; [rnd i] stands for the
    draw made at index [i], reduced to [0..i] as [Math.floor(Math.random()
    * (i + 1))] is. *)
Fixpoint shuffleFrom (i : nat) (rnd : nat → nat) (deck : list Card) : list Card :=
  match i with
  | 0 => deck
  | S i' => shuffleFrom i' rnd (swap deck i (rnd i mod (i + 1)))
  end.

Definition shuffle (rnd : nat → nat) (deck : list Card) : list Card :=
  shuffleFrom (length deck - 1) rnd deck.

(** The indexes of the occupied seats. *)
Definition playerIndexes (ps : list (option GamePlayer)) : list nat :=
  omap (fun '(i, p) => match p with Some _ => Some i | None => None end)
       (imap (fun i p => (i, p)) ps).

(** [assignDealer]; [pick] stands for the random draw of the first hand. *)
Definition assignDealer (ps : list (option GamePlayer))
    (previousDealerIndex : option nat) (pick : nat) : Res nat :=
  let idxs := playerIndexes ps in
  match idxs with
  | [] => Throw "No valid players to assign dealer"
  | first :: _ =>
      match previousDealerIndex with
      | Some prev =>
          let nextDealerIndex := (prev + 1) mod 4 in
          Ok (if bool_decide (nextDealerIndex ∈ idxs) then nextDealerIndex else first)
      | None => Ok (default first (idxs !! (pick mod length idxs)))
      end
  end.

(** One round of the loop of [dealCards]: push the card on the current
    hand and move to the next seat. *)
Definition dealOne (acc : list (list Card) * nat) (card : Card)
    : list (list Card) * nat :=
  (alter (fun hand => hand ++ [card]) acc.2 acc.1, (acc.2 + 1) mod 4).

(** The loop of [dealCards] over an already shuffled deck. *)
Definition dealFrom (deck : list Card) (dealer : nat) : list (list Card) :=
  (foldl dealOne ([[]; []; []; []], (dealer + 1) mod 4) deck).1.

Definition dealCards (dealer : nat) (rnd : nat → nat) : list (list Card) :=
  dealFrom (shuffle rnd createDeck) dealer.

(** [POST /:id/start]; [debited] tells whether every buy-in could be
    debited, [pick] and [rnd] are the random draws. *)
Definition start (g : Game) (debited : bool) (pick : nat) (rnd : nat → nat)
    : Response * Game :=
  if negb (bool_decide (status g = WAITING)) then
    (Failed 400 "Game already started", g)
  else
    let g1 := setIsBotGame (existsb (hasType bot) (players g)) g in
    if negb (isBotGame g1) && negb debited then
      (Failed 500 "Failed to debit coins from players", g1)
    else
      let g2 := setStatus BIDDING g1 in
      match assignDealer (players g2) (dealerIndex g2) pick with
      | Throw msg => (Raised msg, g2)
      | Ok dealer =>
          let g3 := setHands (Some (dealCards dealer rnd))
                             (setDealerIndex (Some dealer) g2) in
          match seatAt (players g3) ((dealer + 1) mod 4) with
          | None => (Failed 500 "Invalid game state", g3)
          | Some firstBidder =>
              let g4 := setBidding
                          (Some (mkBidding ((dealer + 1) mod 4)
                                           [None; None; None; None])) g3 in
              (Sent g4, g4)
          end
      end.

(** ** Bidding *)

(** The test [bids[i] !== null] ([undefined] is not [null]). *)
Definition bidPlaced (bs : list (option Z)) (i : nat) : bool :=
  match bs !! i with
  | Some None => false
  | _ => true
  end.

(** The loop [while (bids[next] !== null && next !== playerIndex) next =
    (next + 1) % 4]; [None] when [fuel] rounds do not end it. *)
Fixpoint nextUnbid (fuel : nat) (bs : list (option Z)) (playerIndex next : nat)
    : option nat :=
  if bidPlaced bs next && negb (bool_decide (next = playerIndex)) then
    match fuel with
    | 0 => None
    | S fuel' => nextUnbid fuel' bs playerIndex ((next + 1) mod 4)
    end
  else Some next.

(** The test [!game.dealerIndex]: [undefined] and [0] are both falsy. *)
Definition noDealer (d : option nat) : bool :=
  match d with
  | None => true
  | Some n => bool_decide (n = 0)
  end.

(** The socket event [make_bid]; [None] only if the search for the next
    bidder does not end within four rounds. *)
Definition make_bid (g : Game) (userId : string) (bid : Z) : option (Reply * Game) :=
  match bidding g with
  | None => Some (Ignored, g)
  | Some b =>
      match findIndex (hasId userId) (players g) with
      | None => Some (Ignored, g)
      | Some playerIndex =>
          if negb (bool_decide (playerIndex = currentBidderIndex b)) then Some (Ignored, g)
          else if bidPlaced (bids b) playerIndex then Some (Ignored, g)
          else
            let bs := <[playerIndex := Some bid]> (bids b) in
            let g1 := setBidding (Some (mkBidding (currentBidderIndex b) bs)) g in
            next ← nextUnbid 4 bs playerIndex ((playerIndex + 1) mod 4);
            if forallb (fun x => bool_decide (x ≠ None)) bs then
              if noDealer (dealerIndex g1) then
                Some (Rejected "Invalid game state: no dealer assigned", g1)
              else
                let leader := (default 0 (dealerIndex g1) + 1) mod 4 in
                match seatAt (players g1) leader with
                | None => Some (Rejected "Invalid game state", g1)
                | Some firstPlayer =>
                    Some (Emitted ["bidding_complete"; "play_start"],
                          setPlay (Some (mkPlay leader [] [] 0)) g1)
                end
            else
              Some (Emitted ["bidding_update"],
                    setBidding (Some (mkBidding next bs)) g1)
      end
  end.

(** ** Scoring a hand *)

Module Summary.
(** The object returned by [calculatePartnersHandScore]. *)
Record t := mk {
  team1Score : Z;
  team2Score : Z;
  team1Bags : Z;
  team2Bags : Z;
  tricksPerPlayer : list Z
}.
End Summary.

Definition team1 : list nat := [0; 2].
Definition team2 : list nat := [1; 3].

(** The loop [tricksPerPlayer[trick.winnerIndex]++]. *)
Definition countTricks (ts : list Trick) : list Z :=
  foldl (fun acc trick => alter Z.succ (winnerIndex trick) acc) [0; 0; 0; 0]%Z ts.

(** [game.bidding.bids[i] ?? 0]. *)
Definition bidOrZero (bs : list (option Z)) (i : nat) : Z :=
  match bs !! i with
  | Some (Some bid) => bid
  | _ => 0%Z
  end.

(** The loops that add up a team's bids and a team's tricks. The numbers
    of the embedding are integers and their arithmetic is exact, as the
    arithmetic of the code is on integers below 2^53; a statement about
    arbitrary bids bounds them. *)
Definition teamBid (bs : list (option Z)) (team : list nat) : Z :=
  foldl (fun acc i => (acc + bidOrZero bs i)%Z) 0%Z team.

Definition teamTricks (perPlayer : list Z) (team : list nat) : Z :=
  foldl (fun acc i => (acc + default 0 (perPlayer !! i))%Z) 0%Z team.

(** Score and bags of one team. *)
Record Tally := mkTally {
  score : Z;
  bags : Z
}.

(** The contract part: made (with bags) or set. *)
Definition contract (bidTotal tricksTotal : Z) : Tally :=
  if (bidTotal <=? tricksTotal)%Z then
    mkTally (bidTotal * 10 + (tricksTotal - bidTotal)) (tricksTotal - bidTotal)
  else
    mkTally (- (bidTotal * 10)) 0.

(** What one seat's nil or blind nil adds to its team's tally. *)
Definition nilBonus (bid : option Z) (tricksWon : Z) (t : Tally) : Tally :=
  match bid with
  | Some 0%Z =>
      if (tricksWon =? 0)%Z then mkTally (score t + 100) (bags t)
      else mkTally (score t - 100) (bags t + tricksWon)
  | Some (-1)%Z =>
      if (tricksWon =? 0)%Z then mkTally (score t + 200) (bags t)
      else mkTally (score t - 200) (bags t + tricksWon)
  | _ => t
  end.

(** One round of the loop over [[...team1, ...team2]]. *)
Definition nilRound (bs : list (option Z)) (perPlayer : list Z)
    (acc : Tally * Tally) (i : nat) : Tally * Tally :=
  let bid := default None (bs !! i) in
  let tricksWon := default 0%Z (perPlayer !! i) in
  if bool_decide (i ∈ team1) then (nilBonus bid tricksWon acc.1, acc.2)
  else (acc.1, nilBonus bid tricksWon acc.2).

(** The bag penalty at the end of [calculatePartnersHandScore]. *)
Definition bagPenalty (t : Tally) : Tally :=
  if (10 <=? bags t)%Z then mkTally (score t - 100) (bags t - 10) else t.

Definition calculatePartnersHandScore (g : Game) : Res Summary.t :=
  match bidding g, play g with
  | Some b, Some p =>
      let perPlayer := countTricks (tricks p) in
      let t1 := contract (teamBid (bids b) team1) (teamTricks perPlayer team1) in
      let t2 := contract (teamBid (bids b) team2) (teamTricks perPlayer team2) in
      let after := foldl (nilRound (bids b) perPlayer) (t1, t2) (team1 ++ team2) in
      let t1' := bagPenalty after.1 in
      let t2' := bagPenalty after.2 in
      Ok (Summary.mk (score t1') (score t2') (bags t1') (bags t2') perPlayer)
  | _, _ => Throw "Invalid game state for scoring"
  end.

(** The two tallies with which control reaches the comment [// Bag
    penalty] of [calculatePartnersHandScore]: the contract and nil results
    of the hand, before the penalty. *)
Definition handTally (g : Game) : option (Tally * Tally) :=
  match bidding g, play g with
  | Some b, Some p =>
      let perPlayer := countTricks (tricks p) in
      Some (foldl (nilRound (bids b) perPlayer)
                  (contract (teamBid (bids b) team1) (teamTricks perPlayer team1),
                   contract (teamBid (bids b) team2) (teamTricks perPlayer team2))
                  (team1 ++ team2))
  | _, _ => None
  end.

(** ** Playing a card *)

Definition winThreshold : Z := 500.
Definition lossThreshold : Z := -150.

(** The test of the game-over check in [play_card]. *)
Definition thresholdCrossed (total1 total2 : Z) : bool :=
  (winThreshold <=? total1)%Z || (winThreshold <=? total2)%Z
  || (total1 <=? lossThreshold)%Z || (total2 <=? lossThreshold)%Z.

(** [winningTeam] of the game-over check. *)
Definition winningTeam (total1 total2 : Z) : nat :=
  if (total2 <? total1)%Z then 1 else 2.

(** The block of [play_card] that runs when [trickNumber] reaches 13:
    add the hand's summary to the running totals, then the game-over
    check. *)
Definition completeHand (g : Game) : Reply * Game :=
  match calculatePartnersHandScore g with
  | Throw msg => (Rejected msg, g)
  | Ok handSummary =>
      let total1 := (default 0 (team1TotalScore g) + Summary.team1Score handSummary)%Z in
      let total2 := (default 0 (team2TotalScore g) + Summary.team2Score handSummary)%Z in
      let bags1 := (default 0 (team1Bags g) + Summary.team1Bags handSummary)%Z in
      let bags2 := (default 0 (team2Bags g) + Summary.team2Bags handSummary)%Z in
      let g1 := setTotals (Some total1) (Some total2) (Some bags1) (Some bags2) g in
      if thresholdCrossed total1 total2 then
        (Emitted ["trick_complete"; "hand_completed"; "game_over"],
         setStatus COMPLETED g1)
      else (Emitted ["trick_complete"; "hand_completed"], g1)
  end.

(** The test [c.suit === card.suit && c.rank === card.rank]. *)
Definition sameCard (card c : Card) : bool :=
  bool_decide (suit c = suit card) && bool_decide (rank c = rank card).

(** The socket event [play_card]. *)
Definition play_card (g : Game) (userId : string) (card : Card) : Reply * Game :=
  match play g, hands g, bidding g with
  | Some p, Some hs, Some _ =>
      match findIndex (hasId userId) (players g) with
      | None => (Rejected "Player not found in game", g)
      | Some playerIndex =>
          if negb (bool_decide (playerIndex = currentPlayerIndex p)) then
            (Rejected "Not your turn", g)
          else
            match hs !! playerIndex with
            | None => (Rejected "Invalid hand state", g)
            | Some hand =>
                match findIndex (sameCard card) hand with
                | None => (Rejected "Card not in hand", g)
                | Some cardIndex =>
                    let hs' := <[playerIndex := delete cardIndex hand]> hs in
                    let trick :=
                      currentTrick p
                      ++ [mkCard (suit card) (rank card) (Some playerIndex)] in
                    let g1 := setHands (Some hs') g in
                    if bool_decide (length trick = 4) then
                      match determineTrickWinner trick with
                      | Throw msg =>
                          (Rejected msg,
                           setPlay (Some (mkPlay (currentPlayerIndex p) trick
                                                 (tricks p) (trickNumber p))) g1)
                      | Ok winner =>
                          let ts := tricks p ++ [mkTrick trick winner] in
                          let n := trickNumber p + 1 in
                          if bool_decide (n = 13) then
                            completeHand (setPlay (Some (mkPlay winner [] ts n)) g1)
                          else
                            (Emitted ["trick_complete"; "play_update"],
                             setPlay (Some (mkPlay ((winner + 1) mod 4) [] ts n)) g1)
                      end
                    else
                      (Emitted ["play_update"],
                       setPlay (Some (mkPlay ((currentPlayerIndex p + 1) mod 4) trick
                                             (tricks p) (trickNumber p))) g1)
                end
            end
      end
  | _, _, _ => (Rejected "Invalid game state", g)
  end.

(** ** The client's view of legality and of bot seating *)

(** The helpers of [GameTable.tsx]. *)
Module Client.

(** The client's [Suit] type is not among the sources. Its helpers accept
    a suit "as symbol, letter, or word" ([getCardImage], [getSuitKey]): a
    suit text is one of the twelve strings ['♠'], ['S'], ['Spades'], ...
    The server's [createDeck] writes letters. *)
Inductive Spelling := Symbol | Letter | Word.

#[global] Instance Spelling_eq_dec : EqDecision Spelling.
Proof. solve_decision. Defined.

Record SuitText := spelt {
  suitOf : Suit;
  spelling : Spelling
}.

#[global] Instance SuitText_eq_dec : EqDecision SuitText.
Proof. solve_decision. Defined.

(** The fields of a card that the legality helpers read or pass on. *)
Record Card := mkCard {
  suit : SuitText;
  rank : Rank
}.

#[global] Instance Card_eq_dec : EqDecision Card.
Proof. solve_decision. Defined.

(** The literal ['♠'] of the spade tests. *)
Definition spadeSymbol : SuitText := spelt Spades Symbol.

(** The two fields of the client's [GameState] that the legality helpers
    read; a completed trick is given by its [cards]. *)
Record GameState := mkState {
  completedTricks : list (list Card);
  currentTrick : list Card
}.

(** [card.suit === '♠']. *)
Definition isSpade (card : Card) : bool := bool_decide (suit card = spadeSymbol).

(** [trick[0]?.suit || null]; a suit text is a non-empty string, so the
    result is [null] for the empty trick only. *)
Definition getLeadSuit (trick : list Card) : option SuitText :=
  suit <$> head trick.

Definition hasSpadeBeenPlayed (game : GameState) : bool :=
  existsb (fun trickCards => existsb isSpade trickCards) (completedTricks game).

Definition canLeadSpades (game : GameState) (hand : list Card) : bool :=
  hasSpadeBeenPlayed game || forallb isSpade hand.

Definition getPlayableCards (game : GameState) (hand : list Card)
    (isLeadingTrick : bool) : list Card :=
  match hand with
  | [] => []
  | _ =>
      if isLeadingTrick then
        if negb (canLeadSpades game hand) then
          let nonSpades := filter (fun card => suit card ≠ spadeSymbol) hand in
          match nonSpades with
          | [] => hand
          | _ => nonSpades
          end
        else hand
      else
        match getLeadSuit (currentTrick game) with
        | None => []
        | Some leadSuit =>
            let suitCards := filter (fun card => suit card = leadSuit) hand in
            match suitCards with
            | [] => hand
            | _ => suitCards
            end
        end
  end.

(** [handleInviteBot]: the endpoint is chosen by the game's status; the
    body carries [requesterId: currentPlayerId], which is left out of the
    request when [currentPlayerId] is undefined. *)
Definition handleInviteBot (g : Game) (seatIndex : Z)
    (currentPlayerId : option string) (uuid : string) : Response * Game :=
  if bool_decide (status g = WAITING) then inviteBot g seatIndex currentPlayerId uuid
  else inviteBotMidgame g seatIndex currentPlayerId uuid.

End Client.

(** ** Runs of the engine *)

(** The requests a game can receive, with the outside values (database
    answers, random draws, fresh identifiers) each one consumes. *)
Inductive Op :=
| OpJoin (seat : option Z) (playerId name image : string) (db : UserLookup)
| OpSpectate (userId name image : string)
| OpLeave (userId : string)
| OpLeaveGame (userId : string)
| OpInviteBot (seatIndex : Z) (requesterId : option string) (uuid : string)
| OpInviteBotMidgame (seatIndex : Z) (requesterId : option string) (uuid : string)
| OpRemoveBot (seatIndex : Z) (requesterId : option string)
| OpRemoveBotMidgame (seatIndex : Z) (requesterId : option string)
| OpStart (debited : bool) (pick : nat) (rnd : nat → nat)
| OpMakeBid (userId : string) (bid : Z)
| OpPlayCard (userId : string) (card : Card).

(** The game as the handler of [op] leaves it; [None] if the handler does
    not return. A game that [leave_game] takes out of the store receives
    no further request: the server's sequences of requests are those of
    this function that stop there. *)
Definition step (g : Game) (op : Op) : option Game :=
  match op with
  | OpJoin seat playerId name image db => Some (join g seat playerId name image db).2
  | OpSpectate userId name image => Some (spectate g userId name image).2
  | OpLeave userId => Some (leave g userId).2
  | OpLeaveGame userId => Some (leave_game g userId).2
  | OpInviteBot seatIndex requesterId uuid =>
      Some (inviteBot g seatIndex requesterId uuid).2
  | OpInviteBotMidgame seatIndex requesterId uuid =>
      Some (inviteBotMidgame g seatIndex requesterId uuid).2
  | OpRemoveBot seatIndex requesterId => Some (removeBot g seatIndex requesterId).2
  | OpRemoveBotMidgame seatIndex requesterId =>
      Some (removeBotMidgame g seatIndex requesterId).2
  | OpStart debited pick rnd => Some (start g debited pick rnd).2
  | OpMakeBid userId bid => snd <$> make_bid g userId bid
  | OpPlayCard userId card => Some (play_card g userId card).2
  end.

(** The game after a sequence of requests, served one at a time. *)
Fixpoint run (g : Game) (ops : list Op) : option Game :=
  match ops with
  | [] => Some g
  | op :: ops' => g' ← step g op; run g' ops'
  end.

(** ** Measures and invariants used by the proofs *)

(** Cards still held by the four seats. *)
Definition cardsInHands (hs : list (list Card)) : nat :=
  foldr (fun hand n => length hand + n) 0 hs.

(** Cards lying in completed tricks and in the current trick. *)
Definition cardsOnTable (p : option Play) : nat :=
  match p with
  | Some p => 4 * length (tricks p) + length (currentTrick p)
  | None => 0
  end.

(** The quantity the conservation law is about: hand sizes, plus four per
    completed trick, plus the current trick. *)
Definition cardsAccounted (hs : list (list Card)) (p : option Play) : nat :=
  cardsInHands hs + cardsOnTable p.

(** The identities seated at the table, seat by seat. *)
Definition seatedIds (ps : list (option GamePlayer)) : list string :=
  omap (fmap id) ps.

(** Strength of a card in a trick led in suit [led]: spades above the
    suit led, everything else below. *)
Definition strength (led : Suit) (c : Card) : Z :=
  if bool_decide (suit c = Spades) then (100 + getCardValue (rank c))%Z
  else if bool_decide (suit c = led) then getCardValue (rank c)
  else 0%Z.

(** A card that can win a trick led in [led]. *)
Definition contends (led : Suit) (c : Card) : Prop :=
  suit c = Spades ∨ suit c = led.

(** ** Vocabulary of the seating rules *)

(** [requester] is the occupant of seat [i]. *)
Definition heldBy (g : Game) (i : nat) (requester : string) : Prop :=
  ∃ p, seatAt (players g) i = Some p ∧ id p = requester.

(** Seat [i] holds no player. *)
Definition seatEmpty (g : Game) (i : nat) : Prop :=
  seatAt (players g) i = None.

(** The request was answered with the game. *)
Definition succeeded (r : Response) : Prop := ∃ g', r = Sent g'.

(** The request was answered 403. *)
Definition permissionDenied (r : Response) : Prop := ∃ error, r = Failed 403 error.

(** Example tables: Ann created the game and sits on seat 0; Bob, Cat and
    Dan joined seats 1, 2 and 3. *)
Definition annSettings : Settings := mkSettings "ann" "Ann" "" 500 (-150) 0.

Definition seatedPlayer (userId name : string) (seat : Z) : GamePlayer :=
  mkPlayer userId name "/default-pfp.jpg" human (Some seat).

Definition fullTable : Game :=
  setPlayers [Some (mkPlayer "ann" "Ann" "" human None);
              Some (seatedPlayer "bob" "Bob" 1);
              Some (seatedPlayer "cat" "Cat" 2);
              Some (seatedPlayer "dan" "Dan" 3)]
             (createGame annSettings).

(** ** Example runs *)

(** Bob, Cat and Dan join Ann's table on seats 1, 2 and 3. *)
Definition seatOthers : list Op :=
  [OpJoin (Some 1%Z) "bob" "Bob" "" (UserCoins 1000);
   OpJoin (Some 2%Z) "cat" "Cat" "" (UserCoins 1000);
   OpJoin (Some 3%Z) "dan" "Dan" "" (UserCoins 1000)].

(** Draws under which [shuffle] exchanges every card with itself. *)
Definition noShuffle (i : nat) : nat := i.

(** The game starts with the dealer drawn on seat [dealer] (all four seats
    are occupied, so the draw [dealer] selects that seat). *)
Definition startWithDealer (dealer : nat) : list Op :=
  [OpStart true dealer noShuffle].

(** The four bids, in bidding order when Bob deals (Cat bids first). *)
Definition bidsAfterBob (ann bob cat dan : Z) : list Op :=
  [OpMakeBid "cat" cat; OpMakeBid "dan" dan; OpMakeBid "ann" ann; OpMakeBid "bob" bob].

(** A table seated, dealt by Bob and bid. *)
Definition dealtAndBid (ann bob cat dan : Z) : list Op :=
  seatOthers ++ startWithDealer 1 ++ bidsAfterBob ann bob cat dan.

(** The seat on turn plays the first card of its hand. *)
Definition playFirstCard (g : Game) : option Op :=
  p ← play g;
  hs ← hands g;
  who ← seatAt (players g) (currentPlayerIndex p);
  hand ← hs !! currentPlayerIndex p;
  card ← head hand;
  Some (OpPlayCard (id who) card).

Fixpoint playFirstCards (n : nat) (g : Game) : option Game :=
  match n with
  | 0 => Some g
  | S n' => op ← playFirstCard g; g' ← step g op; playFirstCards n' g'
  end.

(** The game reached from [g0] by the requests [ops] followed by [n]
    first-card plays ([g0] itself if some handler did not return). *)
Definition reached (g0 : Game) (ops : list Op) (n : nat) : Game :=
  default g0 (g ← run g0 ops; playFirstCards n g).

(** The requests by which the seats on turn play the first cards of
    their hands, [n] times from [g] on. *)
Fixpoint firstCardOps (n : nat) (g : Game) : list Op :=
  match n with
  | 0 => []
  | S n' =>
      match playFirstCard g with
      | Some op =>
          match step g op with
          | Some g' => op :: firstCardOps n' g'
          | None => []
          end
      | None => []
      end
  end.

(** A hand up to its last card: Ann, Bob and Cat bid one, Dan bids nil,
    and 51 cards are played. *)
Definition untilLastCard : list Op :=
  dealtAndBid 1 1 1 0
  ++ firstCardOps 51 (reached (createGame annSettings) (dealtAndBid 1 1 1 0) 0).

(** The table dealt by Bob and bid, after Cat has led the five of
    hearts. *)
Definition heartsLed : Game :=
  reached (createGame annSettings)
          (dealtAndBid 4 3 3 2 ++ [OpPlayCard "cat" (mkCard Hearts R5 None)]) 0.

(** The table dealt by Bob and bid, after Cat has left her seat 2. *)
Definition catLeft : Game :=
  reached (createGame annSettings) (dealtAndBid 4 3 3 2 ++ [OpLeave "cat"]) 0.

(** The waiting table after its host Ann has left seat 0. *)
Definition hostLeft : Game :=
  reached (createGame annSettings) [OpLeave "ann"] 0.

(** The cards named in the examples. *)
Definition twoOfSpades : Card := mkCard Spades R2 None.
Definition threeOfSpades : Card := mkCard Spades R3 None.
Definition fiveOfHearts : Card := mkCard Hearts R5 None.

(** What every run of the engine maintains: four seats; nothing dealt,
    bid or played while the game waits; the card count; and, once play has
    begun, a bid on every seat. *)
Record wellFormed (g : Game) : Prop := mkWellFormed {
  wf_seats : length (players g) = 4;
  wf_waiting :
    status g = WAITING → hands g = None ∧ bidding g = None ∧ play g = None;
  wf_cards : ∀ hs, hands g = Some hs → cardsAccounted hs (play g) = 52;
  wf_bids :
    ∀ p b, play g = Some p → bidding g = Some b →
           ∀ i, bidPlaced (bids b) i = true
}.

(** ** Auxiliary definitions for the further properties *)

(** The occupied seats of [ps], numbered from [k]: the list that
    [playerIndexes] computes with [map] and [filter], by recursion. *)
Fixpoint occupiedFrom (k : nat) (ps : list (option GamePlayer)) : list nat :=
  match ps with
  | [] => []
  | Some _ :: ps' => k :: occupiedFrom (S k) ps'
  | None :: ps' => occupiedFrom (S k) ps'
  end.

(** A card of a trick carries the seat, one of 0..3, that played it. *)
Definition taggedSeat (c : Card) : Prop :=
  ∃ s, playerIndex c = Some s ∧ s < 4.

(** A completed trick: four tagged cards and a winner among the seats
    that played them. *)
Definition resolvedTrick (t : Trick) : Prop :=
  length (cards t) = 4 ∧ Forall taggedSeat (cards t) ∧ winnerIndex t < 4 ∧
  ∃ c, c ∈ cards t ∧ playerIndex c = Some (winnerIndex t).

(** The shape of a play state. *)
Definition playShaped (p : Play) : Prop :=
  trickNumber p = length (tricks p) ∧
  length (currentTrick p) < 4 ∧
  currentPlayerIndex p < 4 ∧
  Forall taggedSeat (currentTrick p) ∧
  Forall resolvedTrick (tricks p).

(** The shape of a bidding state. *)
Definition biddingShaped (b : Bidding) : Prop :=
  length (bids b) = 4 ∧ currentBidderIndex b < 4.

(** A second invariant of the runs of the engine: the shapes of hands,
    bidding and play, the order in which they come into being, distinct
    spectators, and the statuses in use. *)
Record shaped (g : Game) : Prop := mkShaped {
  sh_hands : ∀ hs, hands g = Some hs → length hs = 4;
  sh_bidding : ∀ b, bidding g = Some b → biddingShaped b ∧ is_Some (hands g);
  sh_play : ∀ p, play g = Some p → playShaped p ∧ is_Some (bidding g);
  sh_spectators : NoDup (id <$> spectators g);
  sh_status : status g ≠ PLAYING
}.

(** The score of a team whose two seats bid neither nil nor blind nil. *)
Definition plainScore (bidTotal tricksTotal : Z) : Z * Z :=
  if (tricksTotal <? bidTotal)%Z then ((- (10 * bidTotal))%Z, 0%Z)
  else if (tricksTotal - bidTotal <? 10)%Z then
    ((10 * bidTotal + (tricksTotal - bidTotal))%Z, (tricksTotal - bidTotal)%Z)
  else
    ((10 * bidTotal + (tricksTotal - bidTotal) - 100)%Z,
     (tricksTotal - bidTotal - 10)%Z).

(** ** More helpers of the table view *)

(** Further helpers of [GameTable.tsx]. *)
Module TableUi.

(** The table [suitOrder] after [getSuitKey]: diamonds, clubs, hearts,
    spades. *)
Definition suitOrder (s : Suit) : Z :=
  match s with
  | Diamonds => 0
  | Clubs => 1
  | Hearts => 2
  | Spades => 3
  end%Z.

(** The comparator passed to [sort]. *)
Definition compareCards (a b : Card) : Z :=
  if bool_decide (suitOrder (suit a) ≠ suitOrder (suit b)) then
    (suitOrder (suit a) - suitOrder (suit b))%Z
  else (getCardValue (rank a) - getCardValue (rank b))%Z.

(** [Array.prototype.sort] is stable and, for a comparator that is a
    total preorder, returns the one stable arrangement in ascending order;
    it is computed here by stable insertion: a card goes before the first
    card that the comparator does not put before it. *)
Fixpoint insertSorted (x : Card) (l : list Card) : list Card :=
  match l with
  | [] => [x]
  | y :: l' =>
      if (compareCards x y <=? 0)%Z then x :: y :: l'
      else y :: insertSorted x l'
  end.

(** [sortCards]: a sorted copy of the hand. *)
Definition sortCards (cards : list Card) : list Card :=
  foldr insertSorted [] cards.

Definition countSpades (hand : list Card) : nat :=
  length (filter (fun card => suit card = Spades) hand).

(** [canInviteBot]; [sanitizedPlayers] is the array the caller passes, the
    seats without the bots ([filter(p => isPlayer(p) || p === null)]). An
    empty [currentPlayerId] is a missing one. *)
Definition sanitized (ps : list (option GamePlayer)) : list (option GamePlayer) :=
  filter (fun p => ¬ hasType bot p = true) ps.

Definition canInviteBot (g : Game) (currentPlayerId : string) (seatIndex : nat)
    (isPreGame : bool) (sanitizedPlayers : list (option GamePlayer)) : bool :=
  if bool_decide (currentPlayerId = "") then false
  else if isPreGame then
    hasId currentPlayerId (default None (sanitizedPlayers !! 0))
    && bool_decide (status g = WAITING)
  else
    let partnerIndex := (seatIndex + 2) mod 4 in
    hasId currentPlayerId (default None (sanitizedPlayers !! partnerIndex))
    && bool_decide (status g = PLAYING).

End TableUi.

(** The bids of a sequence of requests are bids of the game: blind nil
    (-1), nil (0) or a number of tricks up to 13. On such bids the
    integer arithmetic of the embedding is the arithmetic of the code. *)
Definition ordinaryBids (ops : list Op) : bool :=
  forallb (fun op =>
             match op with
             | OpMakeBid _ bid => (-1 <=? bid)%Z && (bid <=? 13)%Z
             | _ => true
             end) ops.



(** The sort key that the comparator induces: suit first, rank second. *)
Definition sortKey (c : Card) : Z :=
  (100 * TableUi.suitOrder (suit c) + getCardValue (rank c))%Z.

(** Every card of the list is followed only by cards of no smaller key. *)
Fixpoint ascending (l : list Card) : Prop :=
  match l with
  | [] => True
  | x :: l' => Forall (fun y => (sortKey x ≤ sortKey y)%Z) l' ∧ ascending l'
  end.

(** * Properties *)

#[local] Arguments Nat.modulo : simpl never.
#[local] Arguments dealCards : simpl never.

(** ** Trick resolution *)

Lemma getCardValue_bounds r : (2 <= getCardValue r <= 14)%Z.
Proof. destruct r; simpl; lia. Qed.

Lemma getCardValue_inj r1 r2 : getCardValue r1 = getCardValue r2 → r1 = r2.
Proof. destruct r1, r2; simpl; intros H; try reflexivity; discriminate H. Qed.

(** While the winning card is a spade or of the suit led, the loop's test
    is a strict comparison of strengths. *)
Lemma takesOver_strength led c w :
  contends led w →
  takesOver c w = bool_decide (strength led w < strength led c)%Z.
Proof.
  intros Hw. unfold takesOver, strength.
  pose proof (getCardValue_bounds (rank c)).
  pose proof (getCardValue_bounds (rank w)).
  destruct Hw as [Hw|Hw]; rewrite Hw;
    destruct (suit c), led; simpl;
    repeat case_bool_decide; simpl;
    try (exfalso; lia); try reflexivity;
    try (destruct (Z.ltb_spec (getCardValue (rank w)) (getCardValue (rank c)));
         try reflexivity; exfalso; lia).
Qed.

Lemma takesOver_contends led c w :
  contends led w → takesOver c w = true → contends led c.
Proof.
  intros Hw. unfold takesOver, contends.
  rewrite orb_true_iff, !andb_true_iff, !bool_decide_eq_true.
  intros [[Hc _]|[Hc _]]; [by left|]. rewrite Hc. exact Hw.
Qed.

(** The loop returns a card of maximal strength among the start card and
    the cards of the trick. *)
Lemma winningCardFrom_max led trick : ∀ w0,
  contends led w0 →
  let w := winningCardFrom w0 trick in
  contends led w ∧ (w = w0 ∨ w ∈ trick) ∧
  (strength led w0 <= strength led w)%Z ∧
  ∀ c, c ∈ trick → (strength led c <= strength led w)%Z.
Proof.
  induction trick as [|c trick IH]; intros w0 Hw0; simpl.
  - split; [done|]. split; [by left|]. split; [lia|].
    intros c Hc. by apply elem_of_nil in Hc.
  - destruct (takesOver c w0) eqn:Htake.
    + pose proof (takesOver_contends led c w0 Hw0 Htake) as Hc.
      rewrite (takesOver_strength led c w0 Hw0) in Htake.
      apply bool_decide_eq_true in Htake.
      destruct (IH c Hc) as (Hcont & Hin & Hge & Hall).
      split; [exact Hcont|]. split.
      { right. destruct Hin as [->|Hin]; [left|by right]. }
      split; [fold (winningCardFrom c trick); lia|].
      intros c' Hc'. apply elem_of_cons in Hc' as [->|Hc']; [exact Hge|by apply Hall].
    + rewrite (takesOver_strength led c w0 Hw0) in Htake.
      apply bool_decide_eq_false in Htake.
      destruct (IH w0 Hw0) as (Hcont & Hin & Hge & Hall).
      split; [exact Hcont|]. split.
      { destruct Hin as [->|Hin]; [by left|right; by right]. }
      split; [exact Hge|].
      intros c' Hc'. apply elem_of_cons in Hc' as [->|Hc']; [|by apply Hall].
      fold (winningCardFrom w0 trick). lia.
Qed.

Lemma strength_spade led c : suit c = Spades → strength led c = (100 + getCardValue (rank c))%Z.
Proof. intros H. unfold strength. by rewrite bool_decide_eq_true_2. Qed.

Lemma strength_plain led c : suit c ≠ Spades → (strength led c <= 14)%Z.
Proof.
  intros H. unfold strength. rewrite bool_decide_eq_false_2 by done.
  pose proof (getCardValue_bounds (rank c)). case_bool_decide; lia.
Qed.

Lemma strength_led led c :
  suit c ≠ Spades → suit c = led → strength led c = getCardValue (rank c).
Proof.
  intros H1 H2. unfold strength.
  rewrite bool_decide_eq_false_2 by done. by rewrite bool_decide_eq_true_2.
Qed.

(** C5. For every trick of four cards, [determineTrickWinner] returns the
    seat tagged on a card [w] of the trick such that: if a spade was
    played, [w] is the highest-rank spade of the trick; otherwise [w] is
    the highest-rank card of the suit of the first (led) card. Ranks are
    ordered by [getCardValue], 2 low to Ace high. *)
Theorem determineTrickWinner_highest (trick : list Card) :
  length trick = 4 →
  ∃ led w,
    head trick = Some led ∧
    determineTrickWinner trick = Ok (default 0 (playerIndex w)) ∧
    (spadePlayed trick → highestOfSuit Spades trick w) ∧
    (¬ spadePlayed trick → highestOfSuit (suit led) trick w).
Proof.
  intros Hlen. destruct trick as [|led rest]; [discriminate Hlen|].
  exists led, (winningCardFrom led (led :: rest)).
  split; [reflexivity|]. split; [reflexivity|].
  destruct (winningCardFrom_max (suit led) (led :: rest) led) as (Hcont & Hin & _ & Hall).
  { by right. }
  set (w := winningCardFrom led (led :: rest)) in *.
  assert (Hw : w ∈ led :: rest).
  { destruct Hin as [->|Hin]; [by left|exact Hin]. }
  split.
  - intros (s & Hs & Hspade).
    assert (Hws : suit w = Spades).
    { destruct (decide (suit w = Spades)) as [|Hno]; [done|].
      pose proof (Hall s Hs) as Hle.
      rewrite (strength_spade _ s Hspade) in Hle.
      pose proof (strength_plain (suit led) w Hno).
      pose proof (getCardValue_bounds (rank s)). lia. }
    split; [exact Hw|]. split; [exact Hws|].
    intros c Hc Hcs. pose proof (Hall c Hc) as Hle.
    rewrite (strength_spade _ c Hcs), (strength_spade _ w Hws) in Hle.
    split; [lia|]. apply getCardValue_inj.
  - intros Hnone.
    assert (Hplain : ∀ c, c ∈ led :: rest → suit c ≠ Spades).
    { intros c Hc Hcs. apply Hnone. by exists c. }
    assert (Hwl : suit w = suit led).
    { destruct Hcont as [Hcont|Hcont]; [|done]. by destruct (Hplain w Hw). }
    split; [exact Hw|]. split; [exact Hwl|].
    intros c Hc Hcl. pose proof (Hall c Hc) as Hle.
    rewrite (strength_led _ c (Hplain c Hc) Hcl) in Hle.
    rewrite (strength_led _ w (Hplain w Hw) Hwl) in Hle.
    split; [lia|]. apply getCardValue_inj.
Qed.

(** The two example tricks of the specification: the king of spades wins
    over clubs, and the jack wins the all-diamond trick; both were played
    by seat 2. The general statement is applied to the first. *)
Lemma determineTrickWinner_examples :
  determineTrickWinner exampleClubsTrick = Ok 2 ∧
  determineTrickWinner exampleDiamondsTrick = Ok 2 ∧
  ∃ led w,
    head exampleClubsTrick = Some led ∧
    determineTrickWinner exampleClubsTrick = Ok (default 0 (playerIndex w)) ∧
    (spadePlayed exampleClubsTrick → highestOfSuit Spades exampleClubsTrick w) ∧
    (¬ spadePlayed exampleClubsTrick → highestOfSuit (suit led) exampleClubsTrick w).
Proof.
  split; [reflexivity|]. split; [reflexivity|].
  apply (determineTrickWinner_highest exampleClubsTrick). reflexivity.
Defined.

(** ** Array helpers *)

Lemma findIndex_Some {A : Type} (p : A → bool) (l : list A) (i : nat) :
  findIndex p l = Some i → ∃ x, l !! i = Some x ∧ p x = true.
Proof.
  revert i. induction l as [|x l IH]; intros i; simpl; [discriminate|].
  destruct (p x) eqn:Hp.
  - intros [= <-]. by exists x.
  - destruct (findIndex p l) as [j|]; simpl; [|discriminate].
    intros [= <-]. by apply IH.
Qed.

Lemma findIndex_lt {A : Type} (p : A → bool) (l : list A) (i : nat) :
  findIndex p l = Some i → i < length l.
Proof.
  intros H. apply findIndex_Some in H as (x & Hx & _).
  by apply lookup_lt_Some in Hx.
Qed.

(** ** Dealing *)

(** Replacing one hand changes the count by the difference of the sizes. *)
Lemma cardsInHands_insert hs i h h' :
  hs !! i = Some h →
  cardsInHands (<[i := h']> hs) + length h = cardsInHands hs + length h'.
Proof.
  revert i. induction hs as [|h0 hs IH]; intros [|i]; simpl; try done.
  - intros [= ->]. lia.
  - intros H. specialize (IH i H). lia.
Qed.

Lemma swap_length deck i j : length (swap deck i j) = length deck.
Proof.
  unfold swap. destruct (deck !! i), (deck !! j); try done.
  by rewrite !length_insert.
Qed.

Lemma shuffleFrom_length i rnd : ∀ deck,
  length (shuffleFrom i rnd deck) = length deck.
Proof.
  induction i as [|i IH]; intros deck; simpl; [done|].
  by rewrite IH, swap_length.
Qed.

Lemma shuffle_length rnd deck : length (shuffle rnd deck) = length deck.
Proof. apply shuffleFrom_length. Qed.

(** One round of dealing adds one card, and keeps the four hands and the
    seat pointer in range. *)
Lemma dealOne_count acc card :
  length acc.1 = 4 → acc.2 < 4 →
  length (dealOne acc card).1 = 4 ∧ (dealOne acc card).2 < 4 ∧
  cardsInHands (dealOne acc card).1 = S (cardsInHands acc.1).
Proof.
  destruct acc as [hs cur]; simpl. intros Hlen Hcur.
  split; [by rewrite length_alter|].
  split; [apply Nat.mod_upper_bound; lia|].
  destruct (lookup_lt_is_Some_2 hs cur) as [h Hh]; [lia|].
  pose proof (cardsInHands_insert hs cur h (h ++ [card]) Hh) as Hins.
  rewrite length_app in Hins. simpl in Hins.
  replace (alter (λ hand, hand ++ [card]) cur hs) with (<[cur := h ++ [card]]> hs).
  - lia.
  - apply list_eq. intros k. destruct (decide (k = cur)) as [->|Hne].
    + rewrite list_lookup_insert_eq by (by eapply lookup_lt_Some).
      by rewrite list_lookup_alter_eq, Hh.
    + by rewrite list_lookup_insert_ne, list_lookup_alter_ne.
Qed.

Lemma deal_count deck : ∀ acc,
  length acc.1 = 4 → acc.2 < 4 →
  cardsInHands (foldl dealOne acc deck).1 = cardsInHands acc.1 + length deck.
Proof.
  induction deck as [|card deck IH]; intros acc Hlen Hcur; simpl; [lia|].
  destruct (dealOne_count acc card Hlen Hcur) as (Hlen' & Hcur' & Hcount).
  rewrite (IH _ Hlen' Hcur'), Hcount. lia.
Qed.

(** [dealCards] hands out the whole deck of 52, whoever deals and whatever
    the shuffle draws. *)
Lemma dealCards_count dealer rnd : cardsInHands (dealCards dealer rnd) = 52.
Proof.
  unfold dealCards, dealFrom. rewrite deal_count.
  - rewrite shuffle_length. reflexivity.
  - reflexivity.
  - cbn [snd]. apply Nat.mod_upper_bound. lia.
Qed.

(** ** The invariant of the engine *)

Lemma wellFormed_createGame settings : wellFormed (createGame settings).
Proof. split; simpl; try done. Qed.

Lemma wellFormed_setPlayers g ps :
  wellFormed g → length ps = 4 → wellFormed (setPlayers ps g).
Proof. intros [? ? ? ?] Hps. by split. Qed.

Lemma wellFormed_setSpectators g ss :
  wellFormed g → wellFormed (setSpectators ss g).
Proof. intros [? ? ? ?]. by split. Qed.

Lemma wellFormed_setIsBotGame g v :
  wellFormed g → wellFormed (setIsBotGame v g).
Proof. intros [? ? ? ?]. by split. Qed.

(** Handlers that only reseat players or spectators. *)
Ltac roster_handler :=
  intros Hwf; repeat case_match; simpl; try exact Hwf;
  repeat first
    [ apply wellFormed_setIsBotGame
    | apply wellFormed_setSpectators
    | apply wellFormed_setPlayers; [|by rewrite length_insert; apply wf_seats] ];
  exact Hwf.

Lemma join_wellFormed g seat playerId name image db :
  wellFormed g → wellFormed (join g seat playerId name image db).2.
Proof. unfold join. roster_handler. Qed.

Lemma spectate_wellFormed g userId name image :
  wellFormed g → wellFormed (spectate g userId name image).2.
Proof. unfold spectate. roster_handler. Qed.

Lemma leave_wellFormed g userId : wellFormed g → wellFormed (leave g userId).2.
Proof. unfold leave. roster_handler. Qed.

(** The game that [leave_game] leaves. *)
Lemma leave_game_game g userId :
  (leave_game g userId).2
  = match findIndex (hasId userId) (players g) with
    | Some playerIdx => setPlayers (<[playerIdx := None]> (players g)) g
    | None => g
    end.
Proof. reflexivity. Qed.

Lemma leave_game_wellFormed g userId :
  wellFormed g → wellFormed (leave_game g userId).2.
Proof. rewrite leave_game_game. roster_handler. Qed.

Lemma inviteBot_wellFormed g seatIndex requesterId uuid :
  wellFormed g → wellFormed (inviteBot g seatIndex requesterId uuid).2.
Proof. unfold inviteBot. roster_handler. Qed.

Lemma inviteBotMidgame_wellFormed g seatIndex requesterId uuid :
  wellFormed g → wellFormed (inviteBotMidgame g seatIndex requesterId uuid).2.
Proof. unfold inviteBotMidgame. roster_handler. Qed.

Lemma removeBot_wellFormed g seatIndex requesterId :
  wellFormed g → wellFormed (removeBot g seatIndex requesterId).2.
Proof. unfold removeBot. roster_handler. Qed.

Lemma removeBotMidgame_wellFormed g seatIndex requesterId :
  wellFormed g → wellFormed (removeBotMidgame g seatIndex requesterId).2.
Proof. unfold removeBotMidgame. roster_handler. Qed.

(** [start] deals 52 cards onto an empty table. *)
Lemma start_wellFormed g debited pick rnd :
  wellFormed g → wellFormed (start g debited pick rnd).2.
Proof.
  intros Hwf. unfold start.
  destruct (bool_decide (status g = WAITING)) eqn:Hst; simpl; [|exact Hwf].
  apply bool_decide_eq_true in Hst.
  destruct (wf_waiting g Hwf Hst) as (Hh & Hb & Hp).
  pose proof (wf_seats g Hwf) as Hseats.
  case_match; simpl; [by apply wellFormed_setIsBotGame|].
  destruct (assignDealer _ _ _) as [dealer|msg]; simpl.
  - assert (Hdealt : ∀ hs, Some (dealCards dealer rnd) = Some hs →
                           cardsAccounted hs (play g) = 52).
    { intros hs [= <-]. rewrite Hp. unfold cardsAccounted, cardsOnTable.
      rewrite dealCards_count. reflexivity. }
    case_match; simpl; split; simpl;
      first [ exact Hseats | exact Hdealt | discriminate
            | intros p b Hplay; rewrite Hp in Hplay; discriminate Hplay ].
  - split; simpl.
    + exact Hseats.
    + discriminate.
    + intros hs Hhs. rewrite Hh in Hhs. discriminate Hhs.
    + intros p b Hplay. rewrite Hp in Hplay. discriminate Hplay.
Qed.

(** ** Bidding always returns *)

(** The search stops at the latest when it is back at the bidder: [k]
    rounds are enough from a seat that is [k] places before the bidder. *)
Lemma nextUnbid_reaches bs playerIndex (k : nat) : ∀ fuel next : nat,
  (k ≤ fuel)%nat → (next < 4)%nat → (next + k) mod 4 = playerIndex →
  is_Some (nextUnbid fuel bs playerIndex next).
Proof.
  induction k as [|k IH]; intros fuel next Hfuel Hnext Hreach.
  - rewrite Nat.add_0_r, Nat.mod_small in Hreach by done. subst next.
    destruct fuel; simpl; rewrite bool_decide_eq_true_2, andb_false_r by done; eauto.
  - destruct fuel as [|fuel]; [lia|]. simpl.
    case_match; [|eauto].
    apply IH; [lia|apply Nat.mod_upper_bound; lia|].
    rewrite Nat.Div0.add_mod_idemp_l. rewrite <- Hreach. f_equal. lia.
Qed.

Lemma nextUnbid_total bs playerIndex :
  playerIndex < 4 →
  is_Some (nextUnbid 4 bs playerIndex ((playerIndex + 1) mod 4)).
Proof.
  intros Hlt. apply (nextUnbid_reaches bs playerIndex 3).
  - lia.
  - apply Nat.mod_upper_bound. lia.
  - rewrite Nat.Div0.add_mod_idemp_l.
    replace (playerIndex + 1 + 3) with (playerIndex + 1 * 4) by lia.
    rewrite Nat.Div0.mod_add. by apply Nat.mod_small.
Qed.

Lemma forallb_bidPlaced bs :
  forallb (fun x => bool_decide (x ≠ None)) bs = true →
  ∀ i, bidPlaced bs i = true.
Proof.
  intros Hall i. unfold bidPlaced.
  destruct (bs !! i) as [[bid|]|] eqn:Hi; try done.
  rewrite forallb_forall in Hall.
  apply list_elem_of_lookup_2, list_elem_of_In, Hall in Hi.
  by apply bool_decide_eq_true in Hi.
Qed.

Lemma make_bid_wellFormed g userId bid :
  wellFormed g →
  ∃ r, make_bid g userId bid = Some r ∧ wellFormed r.2.
Proof.
  intros Hwf. unfold make_bid.
  destruct (bidding g) as [b|] eqn:Hb; [|by eexists].
  destruct (findIndex _ _) as [playerIndex|] eqn:Hfind; [|by eexists].
  apply findIndex_lt in Hfind. rewrite (wf_seats g Hwf) in Hfind.
  case_match; [by eexists|].
  destruct (bidPlaced (bids b) playerIndex) eqn:Hplaced; [by eexists|].
  assert (Hplay : play g = None).
  { destruct (play g) as [p|] eqn:Hp; [|done].
    rewrite (wf_bids g Hwf p b Hp Hb playerIndex) in Hplaced. discriminate. }
  assert (Hst : status g ≠ WAITING).
  { intros Hst. destruct (wf_waiting g Hwf Hst) as (_ & Hb' & _). congruence. }
  destruct (nextUnbid_total (<[playerIndex:=Some bid]> (bids b)) playerIndex Hfind)
    as [next Hnext].
  rewrite Hnext. simpl.
  pose proof (wf_seats g Hwf) as Hseats.
  pose proof (wf_cards g Hwf) as Hcards.
  destruct (forallb _ _) eqn:Hall.
  - repeat case_match; eexists; (split; [reflexivity|]); split; simpl;
      try done; try (rewrite Hplay; discriminate);
      try (intros hs Hhs; specialize (Hcards hs Hhs); by rewrite Hplay in Hcards).
    intros p b' _ [= <-]. simpl. by apply forallb_bidPlaced.
  - eexists; (split; [reflexivity|]); split; simpl; try done.
    rewrite Hplay; discriminate.
Qed.

(** ** Playing a card keeps the invariant *)

(** The end-of-hand block touches the totals and the status only. *)
Lemma completeHand_frame g :
  let g' := (completeHand g).2 in
  players g' = players g ∧ hands g' = hands g ∧ bidding g' = bidding g ∧
  play g' = play g ∧ (status g' = status g ∨ status g' = COMPLETED).
Proof.
  unfold completeHand. repeat case_match; simpl; repeat split; auto.
Qed.

(** A state that differs from a well-formed one by a move of cards which
    keeps the count is well formed. *)
Lemma wellFormed_moved g g' hs hs' p p' :
  wellFormed g → hands g = Some hs → play g = Some p →
  players g' = players g → bidding g' = bidding g →
  (status g' = status g ∨ status g' = COMPLETED) →
  hands g' = Some hs' → play g' = Some p' →
  cardsAccounted hs' (Some p') = cardsAccounted hs (Some p) →
  wellFormed g'.
Proof.
  intros Hwf Hh Hp Hps Hb Hst Hh' Hp' Hcount. split.
  - rewrite Hps. apply (wf_seats g Hwf).
  - intros Hw. destruct Hst as [Hst|Hst]; [|congruence].
    rewrite Hst in Hw. destruct (wf_waiting g Hwf Hw) as (_ & _ & Hno). congruence.
  - intros hs0 Hhs0. rewrite Hh' in Hhs0. injection Hhs0 as <-.
    rewrite Hp', Hcount, <- Hp. by apply (wf_cards g Hwf).
  - intros p0 b0 _ Hb0. rewrite Hb in Hb0. by apply (wf_bids g Hwf p b0).
Qed.

(** Taking one card out of a hand. *)
Lemma cardsInHands_take hs i hand k :
  hs !! i = Some hand → k < length hand →
  S (cardsInHands (<[i := delete k hand]> hs)) = cardsInHands hs.
Proof.
  intros Hi Hk.
  pose proof (cardsInHands_insert hs i hand (delete k hand) Hi) as Hins.
  rewrite length_delete in Hins by (by apply lookup_lt_is_Some_2). lia.
Qed.

Lemma play_card_wellFormed g userId card :
  wellFormed g → wellFormed (play_card g userId card).2.
Proof.
  intros Hwf. unfold play_card.
  destruct (play g) as [p|] eqn:Hp; [|exact Hwf].
  destruct (hands g) as [hs|] eqn:Hh; [|exact Hwf].
  destruct (bidding g) as [b|] eqn:Hb; [|exact Hwf].
  destruct (findIndex _ (players g)) as [playerIndex|]; [|exact Hwf].
  case_match; [exact Hwf|].
  destruct (hs !! playerIndex) as [hand|] eqn:Hhand; [|exact Hwf].
  destruct (findIndex _ hand) as [cardIndex|] eqn:Hcard; [|exact Hwf].
  apply findIndex_lt in Hcard.
  pose proof (cardsInHands_take hs playerIndex hand cardIndex Hhand Hcard) as Htake.
  set (hs' := <[playerIndex := delete cardIndex hand]> hs) in *.
  set (played := mkCard (suit card) (rank card) (Some playerIndex)).
  destruct (bool_decide (length (currentTrick p ++ [played]) = 4)) eqn:Hfull.
  - apply bool_decide_eq_true in Hfull.
    rewrite length_app in Hfull. simpl in Hfull.
    destruct (determineTrickWinner _) as [winner|msg].
    + case_match.
      * match goal with |- wellFormed (completeHand ?g0).2 =>
          destruct (completeHand_frame g0) as (Hps & Hhs & Hbs & Hpl & Hst);
          simpl in Hps, Hhs, Hbs, Hpl, Hst
        end.
        eapply (wellFormed_moved g _ hs hs' p); eauto.
        unfold cardsAccounted, cardsOnTable. simpl. rewrite length_app. simpl. lia.
      * eapply (wellFormed_moved g _ hs hs' p); simpl; eauto.
        unfold cardsAccounted, cardsOnTable. simpl. rewrite length_app. simpl. lia.
    + eapply (wellFormed_moved g _ hs hs' p); simpl; eauto.
      unfold cardsAccounted, cardsOnTable. simpl. rewrite length_app. simpl. lia.
  - eapply (wellFormed_moved g _ hs hs' p); simpl; eauto.
    unfold cardsAccounted, cardsOnTable. simpl. rewrite length_app. simpl. lia.
Qed.

(** ** Every run returns and keeps the invariant *)

Lemma step_wellFormed g op :
  wellFormed g → ∃ g', step g op = Some g' ∧ wellFormed g'.
Proof.
  intros Hwf. destruct op; simpl;
    try (eexists; split; [reflexivity|]).
  - by apply join_wellFormed.
  - by apply spectate_wellFormed.
  - by apply leave_wellFormed.
  - by apply leave_game_wellFormed.
  - by apply inviteBot_wellFormed.
  - by apply inviteBotMidgame_wellFormed.
  - by apply removeBot_wellFormed.
  - by apply removeBotMidgame_wellFormed.
  - by apply start_wellFormed.
  - destruct (make_bid_wellFormed g userId bid Hwf) as (r & Hr & Hwf').
    exists r.2. rewrite Hr. by split.
  - by apply play_card_wellFormed.
Qed.

Lemma run_wellFormed ops : ∀ g,
  wellFormed g → ∃ g', run g ops = Some g' ∧ wellFormed g'.
Proof.
  induction ops as [|op ops IH]; intros g Hwf; simpl.
  - by exists g.
  - destruct (step_wellFormed g op Hwf) as (g1 & Hstep & Hwf1).
    rewrite Hstep. simpl. by apply IH.
Qed.

(** C9. Card conservation. Whatever requests a game receives after its
    creation, in whatever order, every handler returns, and once cards have
    been dealt the sizes of the four hands, plus four times the number of
    completed tricks, plus the size of the current trick add up to 52. *)
Theorem card_conservation (settings : Settings) (ops : list Op) :
  ∃ g, run (createGame settings) ops = Some g ∧
       ∀ hs, hands g = Some hs →
             cardsInHands hs
             + 4 * length (default [] (tricks <$> play g))
             + length (default [] (currentTrick <$> play g)) = 52.
Proof.
  destruct (run_wellFormed ops (createGame settings)) as (g & Hrun & Hwf).
  { apply wellFormed_createGame. }
  exists g. split; [exact Hrun|].
  intros hs Hhs. pose proof (wf_cards g Hwf hs Hhs) as Hcount.
  unfold cardsAccounted, cardsOnTable in Hcount.
  destruct (play g); simpl in *; lia.
Qed.

(** ** One identity, one seat *)

Lemma existsb_hasId userId ps :
  existsb (hasId userId) ps = true ↔ userId ∈ seatedIds ps.
Proof.
  unfold seatedIds. induction ps as [|[q|] ps IH]; simpl.
  - split; [discriminate|]. intros H. by apply elem_of_nil in H.
  - rewrite orb_true_iff, bool_decide_eq_true, elem_of_cons, IH.
    split; (intros [H|H]; [left; congruence|by right]).
  - exact IH.
Qed.

(** Seating a player on an empty seat adds exactly that identity. *)
Lemma seatedIds_insert_empty ps i q :
  ps !! i = Some None → seatedIds (<[i := Some q]> ps) ≡ₚ id q :: seatedIds ps.
Proof.
  unfold seatedIds. revert i. induction ps as [|[q0|] ps IH]; intros [|i]; simpl; try done.
  - intros H. rewrite (IH i H). apply Permutation_swap.
  - intros H. by apply IH.
Qed.

(** C10. A user already seated in a game cannot take a second seat nor
    watch it: the join request is answered 400 "Player already joined" and
    the spectate request is answered with a 400, the game (players and
    spectators) being left as it was. Consequently a join never makes an
    identity appear on two seats: identities that are pairwise distinct
    before the request are pairwise distinct after it. *)
Theorem seated_user_not_seated_twice (g : Game) (seat : option Z)
    (userId name image : string) (db : UserLookup) :
  (userId ∈ seatedIds (players g) →
     join g seat userId name image db = (Failed 400 "Player already joined", g) ∧
     ∃ error, spectate g userId name image = (Failed 400 error, g)) ∧
  (NoDup (seatedIds (players g)) →
     NoDup (seatedIds (players (join g seat userId name image db).2))).
Proof.
  split.
  - intros Hin. apply existsb_hasId in Hin. split.
    + unfold join. by rewrite Hin.
    + unfold spectate. rewrite Hin. repeat case_match; eauto.
  - intros Hnd. unfold join.
    destruct (existsb (hasId userId) (players g)) eqn:Hex; [exact Hnd|].
    assert (Hfresh : userId ∉ seatedIds (players g)).
    { intros Hin. apply existsb_hasId in Hin. congruence. }
    repeat case_match; simpl; try exact Hnd.
    match goal with H : players g !! _ = Some None |- _ =>
      rewrite (seatedIds_insert_empty _ _ _ H) end.
    simpl. by apply NoDup_cons.
Qed.

(** ** Seating a bot *)

Lemma notHost_false g requester :
  notHost g (Some requester) = false ↔ heldBy g 0 requester.
Proof.
  unfold notHost, heldBy. rewrite bool_decide_eq_false.
  destruct (seatAt (players g) 0) as [p|]; simpl; split.
  - intros Hn. exists p. split; [done|].
    destruct (decide (id p = requester)); [done|]. destruct Hn. congruence.
  - intros (q & [= <-] & <-) Hn. by destruct Hn.
  - intros Hn. destruct Hn. discriminate.
  - by intros (q & Hq & _).
Qed.

Lemma notHeldBy_false g i requester :
  notHeldBy g i (Some requester) = false ↔ heldBy g i requester.
Proof.
  unfold notHeldBy, heldBy. destruct (seatAt (players g) i) as [p|].
  - rewrite negb_false_iff, bool_decide_eq_true. split.
    + intros [= Hid]. by exists p.
    + by intros (q & [= <-] & <-).
  - split; [discriminate|]. by intros (q & Hq & _).
Qed.

Lemma seatRefused_false g (position : nat) :
  (position < 4)%nat →
  seatRefused g (Z.of_nat position) = false ↔ seatEmpty g position.
Proof.
  intros Hlt. unfold seatRefused, seatEmpty. rewrite Nat2Z.id.
  replace (Z.of_nat position <? 0)%Z with false by (symmetry; apply Z.ltb_ge; lia).
  replace (3 <? Z.of_nat position)%Z with false by (symmetry; apply Z.ltb_ge; lia).
  simpl. rewrite bool_decide_eq_false.
  destruct (seatAt (players g) position) as [p|]; split; try done.
  intros H. destruct H. by exists p.
Qed.

Lemma succeeded_Sent g : succeeded (Sent g).
Proof. by exists g. Qed.

Lemma succeeded_Failed code error : ¬ succeeded (Failed code error).
Proof. intros [g' H]. discriminate H. Qed.

Lemma permissionDenied_403 error : permissionDenied (Failed 403 error).
Proof. by exists error. Qed.

(** C8, as the code has it, for a request that names its requester. For
    every position 0..3 the bot is seated exactly when the requester holds
    seat 0 (status WAITING) or the partner seat [(position + 2) mod 4]
    (any other status: the game has started) and the target seat is empty.
    Before the game any other requester is answered 403. After the start
    the seat is examined first: an occupied target seat is answered 400
    "Seat is not empty" whoever asks, and a requester other than the
    partner is answered 403 when the seat is empty. A refused request
    leaves the game, hence the seat array, unchanged; an accepted one puts
    the bot on the target seat. *)
Theorem seatBot_permissions (g : Game) (position : nat) (requester uuid : string) :
  (position < 4)%nat →
  let r := Client.handleInviteBot g (Z.of_nat position) (Some requester) uuid in
  (status g = WAITING →
     (succeeded r.1 ↔ heldBy g 0 requester ∧ seatEmpty g position) ∧
     (¬ heldBy g 0 requester → permissionDenied r.1)) ∧
  (status g ≠ WAITING →
     (succeeded r.1 ↔
        heldBy g ((position + 2) mod 4) requester ∧ seatEmpty g position) ∧
     (¬ heldBy g ((position + 2) mod 4) requester → seatEmpty g position →
        permissionDenied r.1) ∧
     (¬ seatEmpty g position → r.1 = Failed 400 "Seat is not empty")) ∧
  (¬ succeeded r.1 → r.2 = g) ∧
  (succeeded r.1 →
     players r.2
     = <[position := Some (botPlayer (Z.of_nat position) uuid)]> (players g)).
Proof.
  intros Hlt. unfold Client.handleInviteBot, inviteBot, inviteBotMidgame.
  rewrite Nat2Z.id.
  pose proof (notHost_false g requester) as Hhost.
  pose proof (notHeldBy_false g ((position + 2) mod 4) requester) as Hpartner.
  pose proof (seatRefused_false g position Hlt) as Hseat.
  pose proof succeeded_Sent as HSent.
  pose proof succeeded_Failed as HFailed.
  pose proof permissionDenied_403 as H403.
  destruct (bool_decide (status g = WAITING)) eqn:Hst; simpl;
    [apply bool_decide_eq_true in Hst|apply bool_decide_eq_false in Hst].
  - destruct (notHost g (Some requester)) eqn:Hh; simpl;
      [|destruct (seatRefused g (Z.of_nat position)) eqn:Hs; simpl];
      intuition (try congruence; try discriminate; eauto); exfalso; eauto.
  - destruct (seatRefused g (Z.of_nat position)) eqn:Hs; simpl;
      [|destruct (notHeldBy g ((position + 2) mod 4) (Some requester)) eqn:Hh; simpl];
      intuition (try congruence; try discriminate; eauto); exfalso; eauto.
Qed.

(** A bot request after the start for a seat that is taken is answered
    400 "Seat is not empty", also when the requester is not the partner.
    The table is the one dealt by Bob and bid, with trick play about to
    begin (the server keeps the status BIDDING during play): Bob (seat 1)
    asks for a bot on Ann's seat 0, whose partner seat 2 is Cat's. So not
    every refusal of a requester without the permission is a permission
    error. *)
Lemma seatBot_occupied_seat_answer :
  let g := reached (createGame annSettings) (dealtAndBid 4 3 3 2) 0 in
  run (createGame annSettings) (dealtAndBid 4 3 3 2) = Some g ∧
  status g = BIDDING ∧ is_Some (play g) ∧
  ¬ heldBy g 2 "bob" ∧
  Client.handleInviteBot g 0 (Some "bob") "u1" = (Failed 400 "Seat is not empty", g) ∧
  ¬ permissionDenied (Client.handleInviteBot g 0 (Some "bob") "u1").1 ∧
  ¬ (∀ g (position : nat) requester uuid,
       (position < 4)%nat → status g ≠ WAITING →
       ¬ heldBy g ((position + 2) mod 4) requester →
       permissionDenied
         (Client.handleInviteBot g (Z.of_nat position) (Some requester) uuid).1).
Proof.
  intros g.
  assert (Hrun : run (createGame annSettings) (dealtAndBid 4 3 3 2) = Some g)
    by (vm_compute; reflexivity).
  assert (Hother : ¬ heldBy g 2 "bob").
  { intros (p & Hp & Hid). vm_compute in Hp. injection Hp as <-. discriminate Hid. }
  assert (Hanswer : Client.handleInviteBot g 0 (Some "bob") "u1"
                    = (Failed 400 "Seat is not empty", g))
    by (vm_compute; reflexivity).
  assert (Hnot403 : ¬ permissionDenied (Client.handleInviteBot g 0 (Some "bob") "u1").1).
  { rewrite Hanswer. intros [error Herr]. discriminate Herr. }
  split; [exact Hrun|]. split; [vm_compute; reflexivity|].
  split; [vm_compute; by eexists|]. split; [exact Hother|].
  split; [exact Hanswer|]. split; [exact Hnot403|].
  intros Hall. apply Hnot403, (Hall g 0%nat "bob" "u1"); [lia| |exact Hother].
  vm_compute. discriminate.
Qed.

(** Before the game Ann, who holds seat 0, seats a bot on the empty seat
    2, and Bob is refused with a 403. After the start, with Cat's seat 2
    vacated, her partner Ann seats a bot there and Bob is refused with a
    403. *)
Lemma seatBot_permissions_examples :
  succeeded (Client.handleInviteBot (createGame annSettings) 2 (Some "ann") "u1").1 ∧
  permissionDenied
    (Client.handleInviteBot (createGame annSettings) 2 (Some "bob") "u1").1 ∧
  succeeded (Client.handleInviteBot catLeft 2 (Some "ann") "u1").1 ∧
  permissionDenied (Client.handleInviteBot catLeft 2 (Some "bob") "u1").1.
Proof.
  split; [|split; [|split]].
  - destruct (seatBot_permissions (createGame annSettings) 2 "ann" "u1")
      as (Hpre & _); [lia|].
    destruct Hpre as (Hiff & _); [reflexivity|].
    apply Hiff. split; [by eexists|reflexivity].
  - destruct (seatBot_permissions (createGame annSettings) 2 "bob" "u1")
      as (Hpre & _); [lia|].
    destruct Hpre as (_ & Hdenied); [reflexivity|].
    apply Hdenied. intros (p & Hp & Hid). vm_compute in Hp.
    injection Hp as <-. discriminate Hid.
  - destruct (seatBot_permissions catLeft 2 "ann" "u1") as (_ & Hmid & _); [lia|].
    destruct Hmid as (Hiff & _); [vm_compute; discriminate|].
    apply Hiff. split; [eexists; split; vm_compute; reflexivity|vm_compute; reflexivity].
  - destruct (seatBot_permissions catLeft 2 "bob" "u1") as (_ & Hmid & _); [lia|].
    destruct Hmid as (_ & Hdenied & _); [vm_compute; discriminate|].
    apply Hdenied; [|vm_compute; reflexivity].
    intros (p & Hp & Hid). vm_compute in Hp. injection Hp as <-. discriminate Hid.
Defined.

(** The host test on a request that names no requester. After Ann has
    left the waiting table seat 0 is empty, and a body without
    [requesterId] passes the test: the bot is seated on seat 1, and the
    same request removes it again. A request that names anybody is
    refused. *)
Example inviteBot_without_requester :
  run (createGame annSettings) [OpLeave "ann"] = Some hostLeft ∧
  status hostLeft = WAITING ∧ seatEmpty hostLeft 0 ∧
  succeeded (inviteBot hostLeft 1 None "u1").1 ∧
  succeeded (removeBot (inviteBot hostLeft 1 None "u1").2 1 None).1 ∧
  (inviteBot hostLeft 1 (Some "bob") "u1").1 = Failed 403 "Only host can invite bots".
Proof.
  split; [vm_compute; reflexivity|]. split; [vm_compute; reflexivity|].
  split; [vm_compute; reflexivity|].
  split; [vm_compute; by eexists|]. split; [vm_compute; by eexists|].
  vm_compute. reflexivity.
Qed.

(** Closed facts about example runs are settled by evaluation, one
    conjunct at a time. *)
Ltac by_evaluation :=
  repeat match goal with |- _ ∧ _ => split end; vm_compute; reflexivity.

(** ** What [play_card] does with a held card *)

(** The handler's checks are the turn and the presence of the card in the
    hand. When both pass and the trick stays open, the card is played and
    the turn moves one seat on, whatever the card. *)
Lemma play_card_open_trick g userId card p hs b hand k :
  play g = Some p → hands g = Some hs → bidding g = Some b →
  findIndex (hasId userId) (players g) = Some (currentPlayerIndex p) →
  hs !! currentPlayerIndex p = Some hand →
  findIndex (sameCard card) hand = Some k →
  length (currentTrick p) ≠ 3 →
  play_card g userId card
  = (Emitted ["play_update"],
     setPlay (Some (mkPlay ((currentPlayerIndex p + 1) mod 4)
                           (currentTrick p
                            ++ [mkCard (suit card) (rank card)
                                       (Some (currentPlayerIndex p))])
                           (tricks p) (trickNumber p)))
       (setHands (Some (<[currentPlayerIndex p := delete k hand]> hs)) g)).
Proof.
  intros Hp Hh Hb Hwho Hhand Hk Hopen. unfold play_card.
  rewrite Hp, Hh, Hb, Hwho, bool_decide_eq_true_2 by done. simpl.
  rewrite Hhand, Hk.
  rewrite bool_decide_eq_false_2; [done|].
  rewrite length_app. simpl. lia.
Qed.

(** When the card completes a trick other than the thirteenth, the trick
    is resolved and the turn goes to the seat after the winner's. *)
Lemma play_card_resolved_trick g userId card p hs b hand k :
  play g = Some p → hands g = Some hs → bidding g = Some b →
  findIndex (hasId userId) (players g) = Some (currentPlayerIndex p) →
  hs !! currentPlayerIndex p = Some hand →
  findIndex (sameCard card) hand = Some k →
  length (currentTrick p) = 3 →
  trickNumber p + 1 ≠ 13 →
  let trick := currentTrick p
               ++ [mkCard (suit card) (rank card) (Some (currentPlayerIndex p))] in
  ∃ winner,
    determineTrickWinner trick = Ok winner ∧
    play (play_card g userId card).2
    = Some (mkPlay ((winner + 1) mod 4) [] (tricks p ++ [mkTrick trick winner])
                   (trickNumber p + 1)).
Proof.
  intros Hp Hh Hb Hwho Hhand Hk Hfull Hnot13 trick. unfold play_card.
  rewrite Hp, Hh, Hb, Hwho, bool_decide_eq_true_2 by done. simpl.
  rewrite Hhand, Hk. fold trick.
  assert (Hlen : length trick = 4).
  { unfold trick. rewrite length_app. simpl. lia. }
  rewrite bool_decide_eq_true_2 by done.
  destruct trick as [|first rest] eqn:Htrick; [discriminate Hlen|].
  simpl. eexists. split; [reflexivity|].
  by rewrite bool_decide_eq_false_2.
Qed.

(** C1 (code defect). In a game that Bob deals, the first trick is won by
    seat 1; once it is resolved the current trick is empty and the seat on
    turn is seat 2, the seat after the winner's, not the winner's seat 1:
    the handler first sets [currentPlayerIndex] to the winner and then
    advances it by one. *)
Theorem play_card_leader_after_first_trick :
  let g := reached (createGame annSettings) (dealtAndBid 4 3 3 2) 4 in
  (g' ← run (createGame annSettings) (dealtAndBid 4 3 3 2); playFirstCards 4 g')
  = Some g ∧
  ∃ p trick,
    play g = Some p ∧ tricks p = [trick] ∧ winnerIndex trick = 1 ∧
    determineTrickWinner (cards trick) = Ok 1 ∧
    currentTrick p = [] ∧ trickNumber p = 1 ∧ currentPlayerIndex p = 2.
Proof.
  split; [vm_compute; reflexivity|].
  eexists _, _. vm_compute. repeat split; reflexivity.
Qed.

(** ** The last bid of a hand *)

(** X26. When the bid of the seat on turn fills the last empty entry, the play
    state is created with the seat after the dealer as leader and an empty
    trick, provided the dealer is not seat 0; with seat 0 as dealer the
    handler reports that no dealer is assigned and creates no play state. *)
Lemma make_bid_last_bid g userId bid b playerIndex dealer :
  bidding g = Some b →
  findIndex (hasId userId) (players g) = Some playerIndex →
  playerIndex = currentBidderIndex b →
  (playerIndex < 4)%nat →
  bidPlaced (bids b) playerIndex = false →
  forallb (fun x => bool_decide (x ≠ None)) (<[playerIndex := Some bid]> (bids b)) = true →
  dealerIndex g = Some dealer →
  let g1 := setBidding
              (Some (mkBidding (currentBidderIndex b)
                               (<[playerIndex := Some bid]> (bids b)))) g in
  (dealer = 0%nat →
     make_bid g userId bid
     = Some (Rejected "Invalid game state: no dealer assigned", g1)) ∧
  (dealer ≠ 0%nat → is_Some (seatAt (players g) ((dealer + 1) mod 4)) →
     make_bid g userId bid
     = Some (Emitted ["bidding_complete"; "play_start"],
             setPlay (Some (mkPlay ((dealer + 1) mod 4) [] [] 0)) g1)).
Proof.
  intros Hb Hwho Hturn Hlt Hnull Hall Hdealer g1. unfold make_bid.
  rewrite Hb, Hwho, bool_decide_eq_true_2 by done. cbn [negb]. rewrite Hnull.
  destruct (nextUnbid_total (<[playerIndex:=Some bid]> (bids b)) playerIndex Hlt)
    as [next Hnext].
  rewrite Hnext. simpl. rewrite Hall, Hdealer. simpl. split.
  - intros ->. reflexivity.
  - intros Hne [q Hq]. rewrite bool_decide_eq_false_2 by done. by rewrite Hq.
Qed.

(** C3 (code defect). Ann deals (seat 0); Bob, Cat and Dan have bid and
    Ann, the seat on turn, places the fourth bid. All four entries of
    [bids] are then non-null, but the handler answers "Invalid game state:
    no dealer assigned" and creates no play state: its test
    [!game.dealerIndex] takes dealer 0 for a missing dealer. *)
Theorem make_bid_fourth_bid_with_dealer_zero :
  let ops := seatOthers ++ startWithDealer 0
             ++ [OpMakeBid "bob" 3; OpMakeBid "cat" 3; OpMakeBid "dan" 2] in
  let g := reached (createGame annSettings) ops 0 in
  run (createGame annSettings) ops = Some g ∧
  dealerIndex g = Some 0%nat ∧
  bidding g = Some (mkBidding 0 [None; Some 3; Some 3; Some 2]%Z) ∧
  ∃ g', make_bid g "ann" 4
        = Some (Rejected "Invalid game state: no dealer assigned", g') ∧
        bidding g' = Some (mkBidding 0 [Some 4; Some 3; Some 3; Some 2]%Z) ∧
        play g' = None.
Proof.
  split; [vm_compute; reflexivity|].
  split; [vm_compute; reflexivity|].
  split; [vm_compute; reflexivity|].
  eexists. split; [vm_compute; reflexivity|].
  split; vm_compute; reflexivity.
Qed.

(** ** Scores *)

(** The team bid is the plain sum of the two entries. *)
Lemma teamBid_sum bs i j :
  teamBid bs [i; j] = (bidOrZero bs i + bidOrZero bs j)%Z.
Proof. unfold teamBid. simpl. lia. Qed.


(** Team 1 is named the winner exactly when its total is the higher
    one. *)
Lemma winningTeam_higher total1 total2 :
  winningTeam total1 total2 = 1%nat ↔ (total2 < total1)%Z.
Proof.
  unfold winningTeam. destruct (Z.ltb_spec total2 total1); split; try done; lia.
Qed.

(** X27. The game-over check as a function of the two totals: the constants
    decide, and on equal totals team 2 is named the winner. *)
Lemma completeHand_status g summary :
  calculatePartnersHandScore g = Ok summary →
  let total1 := (default 0 (team1TotalScore g) + Summary.team1Score summary)%Z in
  let total2 := (default 0 (team2TotalScore g) + Summary.team2Score summary)%Z in
  status (completeHand g).2
  = if bool_decide (500 ≤ total1 ∨ 500 ≤ total2 ∨ total1 ≤ -150 ∨ total2 ≤ -150)%Z
    then COMPLETED else status g.
Proof.
  intros Hsum total1 total2. unfold completeHand. rewrite Hsum.
  fold total1 total2. unfold thresholdCrossed, winThreshold, lossThreshold.
  case_bool_decide as Hcross.
  - replace ((500 <=? total1)%Z || (500 <=? total2)%Z
             || (total1 <=? -150)%Z || (total2 <=? -150)%Z) with true; [done|].
    symmetry. rewrite !orb_true_iff, !Z.leb_le. tauto.
  - replace ((500 <=? total1)%Z || (500 <=? total2)%Z
             || (total1 <=? -150)%Z || (total2 <=? -150)%Z) with false; [done|].
    symmetry. apply not_true_is_false. rewrite !orb_true_iff, !Z.leb_le. tauto.
Qed.

(** C6 (code defect). Ann bids 3 and her partner Cat bids blind nil, the
    sentinel -1. The team bid computed by the scoring code is 3 + (-1) = 2,
    not 3. In the hand played, the team takes 2 tricks: the contract counts
    as made (+20) where a team bid of 3 would be set (-30), and with Cat's
    failed blind nil (-200) the hand scores -180. *)
Theorem blind_nil_counts_minus_one_in_team_bid :
  let g := reached (createGame annSettings) (dealtAndBid 3 5 (-1) 3) 52 in
  (g' ← run (createGame annSettings) (dealtAndBid 3 5 (-1) 3); playFirstCards 52 g')
  = Some g ∧
  (bids <$> bidding g) = Some [Some 3; Some 5; Some (-1); Some 3]%Z ∧
  teamBid [Some 3; Some 5; Some (-1); Some 3]%Z team1 = 2%Z ∧
  teamTricks [1; 10; 1; 1]%Z team1 = 2%Z ∧
  calculatePartnersHandScore g
  = Ok (Summary.mk (-180) 83 1 3 [1; 10; 1; 1]%Z).
Proof. intros; by_evaluation. Qed.

(** C7 (code defect). The game-over check compares the totals with the
    constants 500 and -150, not with the thresholds stored at creation.
    A game created with thresholds 200 and -100 goes on after a hand that
    leaves team 1 at -130; a game created with thresholds 1000 and -250
    ends after a hand that leaves team 1 at -150. *)
Theorem game_over_ignores_configured_thresholds :
  let narrow := createGame (mkSettings "ann" "Ann" "" 200 (-100) 0) in
  let wide := createGame (mkSettings "ann" "Ann" "" 1000 (-250) 0) in
  let g1 := reached narrow (dealtAndBid 7 5 6 3) 52 in
  let g2 := reached wide (dealtAndBid 8 5 7 3) 52 in
  ((g ← run narrow (dealtAndBid 7 5 6 3); playFirstCards 52 g) = Some g1 ∧
   maxPoints g1 = 200%Z ∧ minPoints g1 = (-100)%Z ∧
   team1TotalScore g1 = Some (-130)%Z ∧ team2TotalScore g1 = Some 83%Z ∧
   status g1 = BIDDING) ∧
  ((g ← run wide (dealtAndBid 8 5 7 3); playFirstCards 52 g) = Some g2 ∧
   maxPoints g2 = 1000%Z ∧ minPoints g2 = (-250)%Z ∧
   team1TotalScore g2 = Some (-150)%Z ∧ team2TotalScore g2 = Some 83%Z ∧
   status g2 = COMPLETED).
Proof. intros; by_evaluation. Qed.

(** The conservation law at work in the middle of a hand: after six plays
    46 cards are held, one trick is completed and two cards lie in the
    current trick; after all 52 plays the hands are empty and thirteen
    tricks are completed. *)
Example card_conservation_in_a_hand :
  let g := reached (createGame annSettings) (dealtAndBid 4 3 3 2) 6 in
  let g' := reached (createGame annSettings) (dealtAndBid 4 3 3 2) 52 in
  (cardsInHands <$> hands g) = Some 46%nat ∧
  (length <$> (tricks <$> play g)) = Some 1%nat ∧
  (length <$> (currentTrick <$> play g)) = Some 2%nat ∧
  (cardsInHands <$> hands g') = Some 0%nat ∧
  (length <$> (tricks <$> play g')) = Some 13%nat ∧
  (length <$> (currentTrick <$> play g')) = Some 0%nat.
Proof. intros; by_evaluation. Qed.

(** * Further properties of the engine *)

(** ** Shuffle and deal *)

(** Overwriting one entry exchanges the old entry for the new one. *)
Lemma insert_exchange {A : Type} (l : list A) (i : nat) (a b : A) :
  l !! i = Some a → b :: l ≡ₚ a :: <[i := b]> l.
Proof.
  revert i. induction l as [|x l IH]; intros [|i]; simpl; try done.
  - intros [= ->]. apply Permutation_swap.
  - intros H. etrans; [apply Permutation_swap|].
    etrans; [apply Permutation_skip, (IH i H)|apply Permutation_swap].
Qed.

Lemma swap_Permutation deck i j : swap deck i j ≡ₚ deck.
Proof.
  unfold swap.
  destruct (deck !! i) as [a|] eqn:Hi; [|done].
  destruct (deck !! j) as [b|] eqn:Hj; [|done].
  assert (Hj' : <[i := b]> deck !! j = Some b).
  { destruct (decide (i = j)) as [->|Hne].
    - apply list_lookup_insert_eq. by eapply lookup_lt_Some.
    - by rewrite list_lookup_insert_ne. }
  apply (Permutation_cons_inv (a := b)).
  rewrite <- (insert_exchange _ j b a Hj').
  symmetry. apply (insert_exchange _ i a b Hi).
Qed.

Lemma shuffleFrom_Permutation i rnd : ∀ deck, shuffleFrom i rnd deck ≡ₚ deck.
Proof.
  induction i as [|i IH]; intros deck; simpl; [done|].
  by rewrite IH, swap_Permutation.
Qed.

Lemma shuffle_rearranges rnd deck : shuffle rnd deck ≡ₚ deck.
Proof. apply shuffleFrom_Permutation. Qed.

Lemma dealCards_unfold dealer rnd :
  dealCards dealer rnd = dealFrom (shuffle rnd createDeck) dealer.
Proof. reflexivity. Qed.

(** X1. Whatever the random draws, [shuffle] returns a permutation of the
    deck it is given: no card is lost, added or duplicated. *)
Theorem shuffle_Permutation (rnd : nat → nat) (deck : list Card) :
  shuffle rnd deck ≡ₚ deck.
Proof. exact (shuffle_rearranges rnd deck). Qed.

(** One round of dealing adds the card to the hands. *)
Lemma dealOne_concat acc card :
  acc.2 < length acc.1 → concat (dealOne acc card).1 ≡ₚ card :: concat acc.1.
Proof.
  destruct acc as [hs cur]. simpl. revert cur.
  induction hs as [|h hs IH]; intros [|cur] Hlt; simpl in *; try lia.
  - rewrite <- app_assoc. simpl.
    by rewrite <- Permutation_middle.
  - rewrite (IH cur) by lia. by rewrite <- Permutation_middle.
Qed.

Lemma deal_concat deck : ∀ acc,
  length acc.1 = 4 → acc.2 < 4 →
  concat (foldl dealOne acc deck).1 ≡ₚ concat acc.1 ++ deck.
Proof.
  induction deck as [|card deck IH]; intros acc Hlen Hcur; simpl.
  - by rewrite app_nil_r.
  - destruct (dealOne_count acc card Hlen Hcur) as (Hlen' & Hcur' & _).
    rewrite (IH _ Hlen' Hcur'), dealOne_concat by lia.
    by rewrite <- Permutation_middle.
Qed.

(** Four rounds of dealing give one card to each of the four hands and
    bring the pointer back to where it was. *)
Lemma deal_four h0 h1 h2 h3 cur c1 c2 c3 c4 :
  cur < 4 →
  ∃ h0' h1' h2' h3',
    foldl dealOne ([h0; h1; h2; h3], cur) [c1; c2; c3; c4]
    = ([h0'; h1'; h2'; h3'], cur) ∧
    length h0' = S (length h0) ∧ length h1' = S (length h1) ∧
    length h2' = S (length h2) ∧ length h3' = S (length h3).
Proof.
  intros Hcur.
  destruct cur as [|[|[|[|cur]]]]; [| | | |lia];
    (eexists _, _, _, _; split; [vm_compute; reflexivity|]);
    rewrite !length_app; simpl; lia.
Qed.

Lemma deal_rounds n : ∀ deck h0 h1 h2 h3 cur,
  length deck = 4 * n → cur < 4 →
  ∃ h0' h1' h2' h3',
    (foldl dealOne ([h0; h1; h2; h3], cur) deck).1 = [h0'; h1'; h2'; h3'] ∧
    length h0' = length h0 + n ∧ length h1' = length h1 + n ∧
    length h2' = length h2 + n ∧ length h3' = length h3 + n.
Proof.
  induction n as [|n IH]; intros deck h0 h1 h2 h3 cur Hlen Hcur.
  - destruct deck; [|discriminate Hlen]. simpl.
    eexists _, _, _, _. split; [reflexivity|]. lia.
  - destruct deck as [|c1 [|c2 [|c3 [|c4 deck]]]]; simpl in Hlen; try lia.
    destruct (deal_four h0 h1 h2 h3 cur c1 c2 c3 c4 Hcur)
      as (k0 & k1 & k2 & k3 & Hfour & L0 & L1 & L2 & L3).
    change (c1 :: c2 :: c3 :: c4 :: deck) with ([c1; c2; c3; c4] ++ deck).
    rewrite foldl_app, Hfour.
    destruct (IH deck k0 k1 k2 k3 cur) as (m0 & m1 & m2 & m3 & Hrest & M0 & M1 & M2 & M3);
      [lia|done|].
    exists m0, m1, m2, m3. split; [exact Hrest|]. lia.
Qed.

(** The hands dealt from any deck are a rearrangement of that deck. *)
Lemma dealFrom_Permutation deck dealer : concat (dealFrom deck dealer) ≡ₚ deck.
Proof.
  unfold dealFrom.
  rewrite deal_concat; [done|done|].
  cbn [snd]. apply Nat.mod_upper_bound. lia.
Qed.

(** A deck of 52 cards is dealt as four hands of 13. *)
Lemma dealFrom_thirteen deck dealer :
  length deck = 52 →
  ∃ h0 h1 h2 h3,
    dealFrom deck dealer = [h0; h1; h2; h3] ∧
    length h0 = 13 ∧ length h1 = 13 ∧ length h2 = 13 ∧ length h3 = 13.
Proof.
  intros Hlen. unfold dealFrom.
  destruct (deal_rounds 13 deck [] [] [] [] ((dealer + 1) mod 4))
    as (h0 & h1 & h2 & h3 & Hdeal & L0 & L1 & L2 & L3).
  - rewrite Hlen. reflexivity.
  - apply Nat.mod_upper_bound. lia.
  - exists h0, h1, h2, h3. by split.
Qed.

Lemma createDeck_NoDup : NoDup createDeck.
Proof. apply (bool_decide_unpack _). vm_compute. exact I. Qed.

Lemma dealCards_shape dealer rnd :
  ∃ h0 h1 h2 h3,
    dealCards dealer rnd = [h0; h1; h2; h3] ∧
    length h0 = 13 ∧ length h1 = 13 ∧ length h2 = 13 ∧ length h3 = 13 ∧
    h0 ++ h1 ++ h2 ++ h3 ≡ₚ createDeck ∧
    NoDup (h0 ++ h1 ++ h2 ++ h3).
Proof.
  rewrite dealCards_unfold.
  destruct (dealFrom_thirteen (shuffle rnd createDeck) dealer)
    as (h0 & h1 & h2 & h3 & Hdeal & L0 & L1 & L2 & L3).
  { rewrite shuffle_length. reflexivity. }
  pose proof (dealFrom_Permutation (shuffle rnd createDeck) dealer) as Hperm.
  rewrite Hdeal, shuffle_rearranges in Hperm.
  cbn [concat] in Hperm. rewrite app_nil_r in Hperm.
  exists h0, h1, h2, h3. split; [exact Hdeal|].
  repeat (split; [assumption|]).
  rewrite Hperm. apply createDeck_NoDup.
Qed.

(** X2. Whoever deals and whatever the shuffle draws, [dealCards] returns
    four hands of 13 cards each which together are a permutation of the
    52-card deck of [createDeck]; in particular no card is dealt twice. *)
Theorem dealCards_thirteen_each (dealer : nat) (rnd : nat → nat) :
  ∃ h0 h1 h2 h3,
    dealCards dealer rnd = [h0; h1; h2; h3] ∧
    length h0 = 13 ∧ length h1 = 13 ∧ length h2 = 13 ∧ length h3 = 13 ∧
    h0 ++ h1 ++ h2 ++ h3 ≡ₚ createDeck ∧
    NoDup (h0 ++ h1 ++ h2 ++ h3).
Proof. exact (dealCards_shape dealer rnd). Qed.

(** ** Choosing the dealer *)

Lemma playerIndexes_from ps : ∀ k,
  omap (fun '(i, p) => match p : option GamePlayer with
                       | Some _ => Some i
                       | None => None
                       end)
       (imap (fun i p => (k + i, p)) ps)
  = occupiedFrom k ps.
Proof.
  induction ps as [|[q|] ps IH]; intros k; [done| |].
  - rewrite imap_cons. simpl. rewrite Nat.add_0_r. f_equal.
    rewrite <- (IH (S k)). f_equal. apply imap_ext. intros i x _. simpl.
    f_equal. lia.
  - rewrite imap_cons. simpl.
    rewrite <- (IH (S k)). f_equal. apply imap_ext. intros i x _. simpl.
    f_equal. lia.
Qed.

Lemma playerIndexes_occupied ps : playerIndexes ps = occupiedFrom 0 ps.
Proof. apply (playerIndexes_from ps 0). Qed.

Lemma occupiedFrom_elem ps : ∀ k i,
  i ∈ occupiedFrom k ps ↔ (k ≤ i)%nat ∧ is_Some (seatAt ps (i - k)).
Proof.
  unfold seatAt.
  induction ps as [|[q|] ps IH]; intros k i; simpl.
  - split; [by intros H%elem_of_nil|]. intros (_ & [x Hx]). discriminate Hx.
  - rewrite elem_of_cons, IH. split.
    + intros [->|(Hle & Hs)].
      * split; [lia|]. rewrite Nat.sub_diag. by eexists.
      * split; [lia|]. by replace (i - k) with (S (i - S k)) by lia.
    + intros (Hle & Hs). destruct (decide (i = k)) as [->|Hne]; [by left|].
      right. split; [lia|]. by replace (i - k) with (S (i - S k)) in Hs by lia.
  - rewrite IH. split.
    + intros (Hle & Hs). split; [lia|].
      by replace (i - k) with (S (i - S k)) by lia.
    + intros (Hle & Hs). destruct (decide (i = k)) as [->|Hne].
      { rewrite Nat.sub_diag in Hs. simpl in Hs. destruct Hs as [x Hx]. discriminate Hx. }
      split; [lia|]. by replace (i - k) with (S (i - S k)) in Hs by lia.
Qed.

Lemma occupiedFrom_lowest ps : ∀ k first rest,
  occupiedFrom k ps = first :: rest →
  ∀ j, (k ≤ j)%nat → j < first → seatAt ps (j - k) = None.
Proof.
  unfold seatAt.
  induction ps as [|[q|] ps IH]; intros k first rest; simpl; [done| |].
  - intros [= <- _] j Hle Hlt. lia.
  - intros Hocc j Hle Hlt. destruct (decide (j = k)) as [->|Hne].
    + by rewrite Nat.sub_diag.
    + replace (j - k) with (S (j - S k)) by lia. simpl.
      apply (IH (S k) first rest Hocc); lia.
Qed.

Lemma assignDealer_cases (ps : list (option GamePlayer))
    (previousDealerIndex : option nat) (pick : nat) :
  (assignDealer ps previousDealerIndex pick
   = Throw "No valid players to assign dealer" ↔ ∀ i, seatAt ps i = None) ∧
  ∀ dealer,
    assignDealer ps previousDealerIndex pick = Ok dealer →
    is_Some (seatAt ps dealer) ∧
    ∀ p, previousDealerIndex = Some p →
         (is_Some (seatAt ps ((p + 1) mod 4)) ∧ dealer = (p + 1) mod 4) ∨
         (seatAt ps ((p + 1) mod 4) = None ∧
          ∀ j, j < dealer → seatAt ps j = None).
Proof.
  unfold assignDealer. rewrite playerIndexes_occupied.
  pose proof (occupiedFrom_elem ps 0) as Helem.
  pose proof (occupiedFrom_lowest ps 0) as Hlow.
  destruct (occupiedFrom 0 ps) as [|first rest] eqn:Hocc.
  - split; [|discriminate].
    split; [|done]. intros _ i.
    destruct (seatAt ps i) as [q|] eqn:Hq; [|done].
    assert (Hin : i ∈ @nil nat).
    { apply Helem. split; [lia|]. rewrite Nat.sub_0_r, Hq. by eexists. }
    by apply elem_of_nil in Hin.
  - assert (Hfirst : is_Some (seatAt ps first)).
    { destruct (Helem first) as [Hin _].
      destruct Hin as (_ & Hs); [by left|]. by rewrite Nat.sub_0_r in Hs. }
    split.
    { split; [destruct previousDealerIndex; discriminate|].
      intros Hnone. rewrite Hnone in Hfirst. by destruct Hfirst. }
    intros dealer Hdealer. destruct previousDealerIndex as [p|].
    + injection Hdealer as <-. case_bool_decide as Hnext.
      * apply Helem in Hnext as (_ & Hs). rewrite Nat.sub_0_r in Hs.
        split; [exact Hs|]. intros p' [= <-]. by left.
      * split; [exact Hfirst|]. intros p' [= <-]. right. split.
        -- destruct (seatAt ps ((p + 1) mod 4)) as [q|] eqn:Hq; [|done].
           destruct Hnext. apply Helem. split; [lia|].
           rewrite Nat.sub_0_r, Hq. by eexists.
        -- intros j Hj. specialize (Hlow first rest eq_refl j).
           rewrite Nat.sub_0_r in Hlow. apply Hlow; lia.
    + injection Hdealer as <-. split; [|discriminate].
      simpl. destruct (_ !! _) as [d|] eqn:Hd; simpl; [|exact Hfirst].
      apply list_elem_of_lookup_2, Helem in Hd as (_ & Hs).
      by rewrite Nat.sub_0_r in Hs.
Qed.

(** X3. [assignDealer] throws exactly when no seat is occupied. Otherwise
    the dealer it returns is an occupied seat; with a previous dealer [p]
    it is seat [(p + 1) mod 4] when that seat is occupied, and the
    lowest-numbered occupied seat when it is not. *)
Theorem assignDealer_occupied_seat (ps : list (option GamePlayer))
    (previousDealerIndex : option nat) (pick : nat) :
  (assignDealer ps previousDealerIndex pick
   = Throw "No valid players to assign dealer" ↔ ∀ i, seatAt ps i = None) ∧
  ∀ dealer,
    assignDealer ps previousDealerIndex pick = Ok dealer →
    is_Some (seatAt ps dealer) ∧
    ∀ p, previousDealerIndex = Some p →
         (is_Some (seatAt ps ((p + 1) mod 4)) ∧ dealer = (p + 1) mod 4) ∨
         (seatAt ps ((p + 1) mod 4) = None ∧
          ∀ j, j < dealer → seatAt ps j = None).
Proof. exact (assignDealer_cases ps previousDealerIndex pick). Qed.

(** ** Starting a game *)

(** X4. When [start] answers with the game, the game was waiting and is
    now in status BIDDING with its roster unchanged and no play state
    created: a dealer is recorded on an occupied seat, the seat after the
    dealer is occupied and is the first bidder, the four bids are null,
    and four hands of 13 cards are dealt. In a game without bots this
    requires that the buy-ins were debited. *)
Theorem start_begins_bidding (g : Game) (debited : bool) (pick : nat)
    (rnd : nat → nat) (sent g' : Game) :
  start g debited pick rnd = (Sent sent, g') →
  sent = g' ∧ status g = WAITING ∧ status g' = BIDDING ∧
  players g' = players g ∧ play g' = play g ∧
  (isBotGame g' = false → debited = true) ∧
  ∃ dealer h0 h1 h2 h3,
    dealerIndex g' = Some dealer ∧
    is_Some (seatAt (players g) dealer) ∧
    is_Some (seatAt (players g) ((dealer + 1) mod 4)) ∧
    bidding g' = Some (mkBidding ((dealer + 1) mod 4) [None; None; None; None]) ∧
    hands g' = Some [h0; h1; h2; h3] ∧
    length h0 = 13 ∧ length h1 = 13 ∧ length h2 = 13 ∧ length h3 = 13.
Proof.
  unfold start.
  destruct (bool_decide (status g = WAITING)) eqn:Hst; simpl; [|discriminate].
  apply bool_decide_eq_true in Hst.
  destruct (existsb (hasType bot) (players g)) eqn:Hbots;
    destruct debited; simpl; try discriminate.
  all: destruct (assignDealer (players g) (dealerIndex g) pick) as [dealer|msg] eqn:Hdealer;
    simpl; [|discriminate].
  all: destruct (seatAt (players g) ((dealer + 1) mod 4)) as [firstBidder|] eqn:Hfirst;
    simpl; [|discriminate].
  all: intros [= <- <-]; simpl.
  all: destruct (assignDealer_cases (players g) (dealerIndex g) pick) as [_ Hok].
  all: destruct (Hok dealer Hdealer) as [Hocc _].
  all: destruct (dealCards_shape dealer rnd)
         as (h0 & h1 & h2 & h3 & Hdeal & L0 & L1 & L2 & L3 & _).
  all: repeat (split; [by auto|]).
  all: exists dealer, h0, h1, h2, h3; rewrite Hdeal, Hfirst; by eauto 10.
Qed.

(** Ann's full table is started with Bob drawn as dealer. *)
Lemma start_begins_bidding_full_table :
  status (start fullTable true 1 noShuffle).2 = BIDDING ∧
  (currentBidderIndex <$> bidding (start fullTable true 1 noShuffle).2) = Some 2.
Proof.
  destruct (start_begins_bidding fullTable true 1 noShuffle
              (start fullTable true 1 noShuffle).2
              (start fullTable true 1 noShuffle).2)
    as (_ & _ & Hst & _ & _ & _ & dealer & h0 & h1 & h2 & h3 & Hd & _ & _ & Hb & _).
  - vm_compute. reflexivity.
  - split; [exact Hst|]. vm_compute. reflexivity.
Defined.

(** ** The shape of the states reached *)

#[local] Arguments nextUnbid : simpl never.

Lemma shaped_createGame settings : shaped (createGame settings).
Proof. split; simpl; try done. constructor. Qed.

Lemma shaped_setPlayers g ps : shaped g → shaped (setPlayers ps g).
Proof. intros [? ? ? ? ?]. by split. Qed.

Lemma shaped_setIsBotGame g v : shaped g → shaped (setIsBotGame v g).
Proof. intros [? ? ? ? ?]. by split. Qed.

Lemma shaped_setSpectators g ss :
  shaped g → NoDup (id <$> ss) → shaped (setSpectators ss g).
Proof. intros [? ? ? ? ?] Hss. by split. Qed.

(** Handlers that only reseat players. *)
Ltac seats_handler :=
  intros Hsh; repeat case_match; simpl; try exact Hsh;
  repeat first [ apply shaped_setIsBotGame | apply shaped_setPlayers ];
  exact Hsh.

Lemma join_shaped g seat playerId name image db :
  shaped g → shaped (join g seat playerId name image db).2.
Proof. unfold join. seats_handler. Qed.

Lemma leave_game_shaped g userId : shaped g → shaped (leave_game g userId).2.
Proof. rewrite leave_game_game. seats_handler. Qed.

Lemma inviteBot_shaped g seatIndex requesterId uuid :
  shaped g → shaped (inviteBot g seatIndex requesterId uuid).2.
Proof. unfold inviteBot. seats_handler. Qed.

Lemma inviteBotMidgame_shaped g seatIndex requesterId uuid :
  shaped g → shaped (inviteBotMidgame g seatIndex requesterId uuid).2.
Proof. unfold inviteBotMidgame. seats_handler. Qed.

Lemma removeBot_shaped g seatIndex requesterId :
  shaped g → shaped (removeBot g seatIndex requesterId).2.
Proof. unfold removeBot. seats_handler. Qed.

Lemma removeBotMidgame_shaped g seatIndex requesterId :
  shaped g → shaped (removeBotMidgame g seatIndex requesterId).2.
Proof. unfold removeBotMidgame. seats_handler. Qed.

Lemma existsb_spectator userId (ss : list GamePlayer) :
  existsb (fun s => bool_decide (id s = userId)) ss = false →
  userId ∉ id <$> ss.
Proof.
  induction ss as [|s ss IH]; simpl.
  - intros _ H. by apply elem_of_nil in H.
  - rewrite orb_false_iff, bool_decide_eq_false. intros (Hne & Hrest).
    rewrite elem_of_cons. intros [Heq|Hin]; [congruence|by apply IH].
Qed.

Lemma spectate_shaped g userId name image :
  shaped g → shaped (spectate g userId name image).2.
Proof.
  intros Hsh. unfold spectate.
  case_match; [exact Hsh|].
  destruct (existsb _ (spectators g)) eqn:Hspec; [exact Hsh|].
  case_match; [exact Hsh|]. simpl.
  apply shaped_setSpectators; [exact Hsh|].
  rewrite fmap_app. apply NoDup_app. split; [apply (sh_spectators g Hsh)|].
  split; [|apply NoDup_singleton].
  intros x Hx Hin. apply list_elem_of_singleton in Hin. simpl in Hin. subst x.
  by apply existsb_spectator in Hspec.
Qed.

Lemma leave_shaped g userId : shaped g → shaped (leave g userId).2.
Proof.
  intros Hsh. unfold leave. simpl.
  set (g1 := match findIndex (hasId userId) (players g) with
             | Some playerIdx => setPlayers (<[playerIdx:=None]> (players g)) g
             | None => g
             end).
  assert (Hsh1 : shaped g1).
  { unfold g1. case_match; [by apply shaped_setPlayers|exact Hsh]. }
  case_match; [|exact Hsh1].
  apply shaped_setSpectators; [exact Hsh1|].
  rewrite list_fmap_delete.
  eapply sublist_NoDup; [apply (sh_spectators g1 Hsh1)|apply sublist_delete].
Qed.

Lemma start_shaped g debited pick rnd :
  shaped g → shaped (start g debited pick rnd).2.
Proof.
  intros Hsh. unfold start.
  destruct (bool_decide (status g = WAITING)) eqn:Hst; simpl; [|exact Hsh].
  destruct Hsh as [Hh Hb Hp Hs Hpl].
  case_match; simpl; [by split|].
  destruct (assignDealer _ _ _) as [dealer|msg]; simpl; [|by split].
  destruct (dealCards_shape dealer rnd) as (h0 & h1 & h2 & h3 & Hdeal & _).
  assert (Hmod : (dealer + 1) mod 4 < 4) by (apply Nat.mod_upper_bound; lia).
  case_match; simpl; split; simpl; try done.
  - intros hs [= <-]. by rewrite Hdeal.
  - intros b [= <-]. split; [by split|by eexists].
  - intros p Hplay. destruct (Hp p Hplay) as (Hshape & _). split; [done|by eexists].
  - intros hs [= <-]. by rewrite Hdeal.
  - intros b Hbid. destruct (Hb b Hbid) as (Hshape & _). split; [done|by eexists].
Qed.

(** The search for the next bidder only visits seats 0..3. *)
Lemma nextUnbid_lt bs playerIndex : ∀ (fuel next n : nat),
  next < 4 → nextUnbid fuel bs playerIndex next = Some n → n < 4.
Proof.
  induction fuel as [|fuel IH]; intros next n Hnext; simpl;
    unfold nextUnbid; fold nextUnbid; case_match; try discriminate;
    try (intros [= <-]; exact Hnext).
  apply IH. apply Nat.mod_upper_bound. lia.
Qed.

Lemma make_bid_shaped g userId bid r :
  shaped g → make_bid g userId bid = Some r → shaped r.2.
Proof.
  intros Hsh. unfold make_bid.
  destruct (bidding g) as [b|] eqn:Hb; [|by intros [= <-]].
  destruct (findIndex _ _) as [playerIndex|]; [|by intros [= <-]].
  case_match; [by intros [= <-]|].
  case_match; [by intros [= <-]|].
  destruct (nextUnbid 4 _ _ _) as [next|] eqn:Hnext; simpl; [|discriminate].
  apply nextUnbid_lt in Hnext; [|apply Nat.mod_upper_bound; lia].
  destruct Hsh as [Hh Hbid Hp Hs Hst].
  destruct (Hbid b Hb) as ((Hlen & Hcur) & Hhands).
  assert (Hmod : ∀ d, (d + 1) mod 4 < 4) by (intros d; apply Nat.mod_upper_bound; lia).
  repeat case_match; intros [= <-]; simpl; split; simpl; try done.
  all: try (intros b' [= <-]; split; [|done]; split; simpl;
            [by rewrite length_insert|done]).
  all: try (intros p Hplay; destruct (Hp p Hplay) as (Hshape & _);
            split; [done|by eexists]).
  intros p [= <-]. split; [|by eexists].
  repeat split; simpl; try done; try lia; by constructor.
Qed.

Lemma determineTrickWinner_played trick winner :
  determineTrickWinner trick = Ok winner →
  ∃ w, w ∈ trick ∧ winner = default 0 (playerIndex w).
Proof.
  destruct trick as [|first rest]; simpl; [discriminate|].
  intros [= <-].
  destruct (winningCardFrom_max (suit first) (first :: rest) first)
    as (_ & Hin & _); [by right|].
  eexists. split; [|reflexivity].
  destruct Hin as [Hin|Hin]; [|exact Hin].
  simpl in Hin. simpl. rewrite Hin. by left.
Qed.

Lemma determineTrickWinner_returns trick card :
  ∃ winner, determineTrickWinner (trick ++ [card]) = Ok winner.
Proof. destruct trick; simpl; eauto. Qed.

(** The end-of-hand block leaves everything but totals and status. *)
Lemma completeHand_keeps g :
  let g' := (completeHand g).2 in
  spectators g' = spectators g ∧ dealerIndex g' = dealerIndex g ∧
  maxPoints g' = maxPoints g ∧ minPoints g' = minPoints g.
Proof. unfold completeHand. repeat case_match; simpl; repeat split. Qed.

Lemma shaped_played g g' hs' p' :
  shaped g → is_Some (play g) →
  hands g' = Some hs' → length hs' = 4 →
  bidding g' = bidding g → spectators g' = spectators g →
  (status g' = status g ∨ status g' = COMPLETED) →
  play g' = Some p' → playShaped p' →
  shaped g'.
Proof.
  intros [Hh Hb Hp Hs Hst] [p Hplay] Hh' Hlen Hb' Hs' Hst' Hp' Hshape. split.
  - intros hs. rewrite Hh'. by intros [= <-].
  - intros b. rewrite Hb', Hh'. intros Hbid.
    destruct (Hb b Hbid) as (? & _). split; [done|by eexists].
  - intros p0. rewrite Hp', Hb'. intros [= <-]. split; [done|].
    by destruct (Hp p Hplay).
  - by rewrite Hs'.
  - destruct Hst' as [->| ->]; done.
Qed.

Lemma play_card_shaped g userId card :
  shaped g → shaped (play_card g userId card).2.
Proof.
  intros Hsh. unfold play_card.
  destruct (play g) as [p|] eqn:Hp; [|exact Hsh].
  destruct (hands g) as [hs|] eqn:Hh; [|exact Hsh].
  destruct (bidding g) as [b|] eqn:Hb; [|exact Hsh].
  destruct (findIndex _ (players g)) as [seat|]; [|exact Hsh].
  case_bool_decide as Hturn; simpl; [|exact Hsh].
  destruct (hs !! seat) as [hand|] eqn:Hhand; [|exact Hsh].
  destruct (findIndex _ hand) as [cardIndex|] eqn:Hcard; [|exact Hsh].
  destruct (sh_play g Hsh p Hp) as ((Hnum & Hcur & Hcpi & Htags & Htricks) & _).
  pose proof (sh_hands g Hsh hs Hh) as Hlen.
  set (played := mkCard (suit card) (rank card) (Some seat)).
  assert (Htagged : Forall taggedSeat (currentTrick p ++ [played])).
  { apply Forall_app. split; [exact Htags|]. apply Forall_singleton.
    exists seat. split; [done|]. by rewrite Hturn. }
  assert (Hmod : ∀ d, (d + 1) mod 4 < 4) by (intros d; apply Nat.mod_upper_bound; lia).
  assert (Hplayed : is_Some (play g)) by (by rewrite Hp).
  destruct (bool_decide (length (currentTrick p ++ [played]) = 4)) eqn:Hfull.
  - apply bool_decide_eq_true in Hfull.
    destruct (determineTrickWinner_returns (currentTrick p) played) as [winner Hwin].
    rewrite Hwin.
    destruct (determineTrickWinner_played _ _ Hwin) as (w & Hw & Hwinner).
    assert (Hwseat : playerIndex w = Some winner ∧ winner < 4).
    { rewrite Forall_forall in Htagged.
      destruct (Htagged w Hw) as (s & Hs & Hlt).
      rewrite Hs in Hwinner. simpl in Hwinner. by subst s. }
    assert (Hresolved : Forall resolvedTrick
                          (tricks p ++ [mkTrick (currentTrick p ++ [played]) winner])).
    { apply Forall_app. split; [exact Htricks|]. apply Forall_singleton.
      repeat split; simpl; try done; [apply Hwseat|].
      exists w. split; [exact Hw|apply Hwseat]. }
    case_match.
    + match goal with |- shaped (completeHand ?g0).2 =>
        destruct (completeHand_frame g0) as (_ & Hhs & Hbs & Hpl & Hstat);
        destruct (completeHand_keeps g0) as (Hspec & _);
        simpl in Hhs, Hbs, Hpl, Hstat, Hspec
      end.
      eapply (shaped_played g); eauto.
      * by rewrite length_insert.
      * repeat split; simpl; try done; try lia; try apply Hwseat.
        rewrite length_app. simpl. lia.
    + eapply (shaped_played g); simpl; eauto.
      * by rewrite length_insert.
      * repeat split; simpl; try done; try lia; try apply Hmod.
        rewrite length_app. simpl. lia.
  - apply bool_decide_eq_false in Hfull.
    eapply (shaped_played g); simpl; eauto.
    + by rewrite length_insert.
    + repeat split; simpl; try done; try apply Hmod.
      rewrite length_app in *. simpl in *. lia.
Qed.

Lemma step_shaped g op g' : shaped g → step g op = Some g' → shaped g'.
Proof.
  intros Hsh. destruct op; simpl; try (intros [= <-]).
  - by apply join_shaped.
  - by apply spectate_shaped.
  - by apply leave_shaped.
  - by apply leave_game_shaped.
  - by apply inviteBot_shaped.
  - by apply inviteBotMidgame_shaped.
  - by apply removeBot_shaped.
  - by apply removeBotMidgame_shaped.
  - by apply start_shaped.
  - destruct (make_bid g userId bid) as [r|] eqn:Hr; simpl; [|discriminate].
    intros [= <-]. by eapply make_bid_shaped.
  - by apply play_card_shaped.
Qed.

Lemma run_shaped ops : ∀ g g', shaped g → run g ops = Some g' → shaped g'.
Proof.
  induction ops as [|op ops IH]; intros g g' Hsh; simpl.
  - by intros [= <-].
  - destruct (step g op) as [g1|] eqn:Hstep; simpl; [|discriminate].
    apply IH. by eapply step_shaped.
Qed.

(** Every run from a fresh game returns and ends in a state that satisfies
    both invariants. *)
Lemma run_invariants settings ops :
  ∃ g, run (createGame settings) ops = Some g ∧ wellFormed g ∧ shaped g.
Proof.
  destruct (run_wellFormed ops (createGame settings)) as (g & Hrun & Hwf).
  { apply wellFormed_createGame. }
  exists g. split; [exact Hrun|]. split; [exact Hwf|].
  eapply run_shaped; [apply shaped_createGame|exact Hrun].
Qed.

Lemma cardsInHands_zero hs :
  cardsInHands hs = 0 → ∀ hand, hand ∈ hs → hand = [].
Proof.
  induction hs as [|h hs IH]; simpl; intros Hzero hand Hin.
  - by apply elem_of_nil in Hin.
  - apply elem_of_cons in Hin as [->|Hin].
    + destruct h; [done|]. simpl in Hzero. lia.
    + apply IH; [lia|exact Hin].
Qed.

(** X5. No request ever puts a game in status PLAYING: whatever requests
    a game receives after its creation, its status is WAITING, BIDDING or
    COMPLETED (trick play runs under status BIDDING). *)
Theorem status_never_playing (settings : Settings) (ops : list Op) :
  ∃ g, run (createGame settings) ops = Some g ∧
       (status g = WAITING ∨ status g = BIDDING ∨ status g = COMPLETED).
Proof.
  destruct (run_invariants settings ops) as (g & Hrun & _ & Hsh).
  exists g. split; [exact Hrun|].
  pose proof (sh_status g Hsh). destruct (status g); auto. done.
Qed.

(** X6. In every state reached, a play state counts its tricks
    faithfully: [trickNumber] is the number of completed tricks and is at
    most 13, the current trick holds at most three cards, the seat on turn
    is one of 0..3, and every completed trick holds four cards and was won
    by a seat that played one of them. *)
Theorem play_state_shape (settings : Settings) (ops : list Op) :
  ∃ g, run (createGame settings) ops = Some g ∧
       ∀ p, play g = Some p →
            trickNumber p = length (tricks p) ∧ (trickNumber p ≤ 13)%nat ∧
            length (currentTrick p) < 4 ∧ currentPlayerIndex p < 4 ∧
            ∀ t, t ∈ tricks p →
                 length (cards t) = 4 ∧ winnerIndex t < 4 ∧
                 ∃ c, c ∈ cards t ∧ playerIndex c = Some (winnerIndex t).
Proof.
  destruct (run_invariants settings ops) as (g & Hrun & Hwf & Hsh).
  exists g. split; [exact Hrun|]. intros p Hp.
  destruct (sh_play g Hsh p Hp) as ((Hnum & Hcur & Hcpi & _ & Htricks) & [b Hb]).
  destruct (sh_bidding g Hsh b Hb) as (_ & [hs Hhs]).
  pose proof (wf_cards g Hwf hs Hhs) as Hcount.
  rewrite Hp in Hcount. unfold cardsAccounted, cardsOnTable in Hcount.
  split; [exact Hnum|]. split; [lia|]. split; [exact Hcur|]. split; [exact Hcpi|].
  intros t Ht. rewrite Forall_forall in Htricks.
  destruct (Htricks t Ht) as (? & _ & ? & ?). done.
Qed.

(** X7. In every state reached, once thirteen tricks are completed the
    current trick is empty and every hand is empty. *)
Theorem thirteen_tricks_empty_the_hands (settings : Settings) (ops : list Op) :
  ∃ g, run (createGame settings) ops = Some g ∧
       ∀ p hs, play g = Some p → hands g = Some hs → trickNumber p = 13 →
               currentTrick p = [] ∧ ∀ hand, hand ∈ hs → hand = [].
Proof.
  destruct (run_invariants settings ops) as (g & Hrun & Hwf & Hsh).
  exists g. split; [exact Hrun|]. intros p hs Hp Hhs Hnum.
  destruct (sh_play g Hsh p Hp) as ((Hlen & _) & _).
  pose proof (wf_cards g Hwf hs Hhs) as Hcount.
  rewrite Hp in Hcount. unfold cardsAccounted, cardsOnTable in Hcount.
  rewrite <- Hlen, Hnum in Hcount. split.
  - destruct (currentTrick p); [done|]. simpl in Hcount. lia.
  - apply cardsInHands_zero. lia.
Qed.

(** X8. In every state reached, a play state exists only once all four
    seats have bid: no card is played before the bidding is complete. *)
Theorem no_play_before_four_bids (settings : Settings) (ops : list Op) :
  ∃ g, run (createGame settings) ops = Some g ∧
       ∀ p, play g = Some p →
            ∃ b b0 b1 b2 b3,
              bidding g = Some b ∧ bids b = [Some b0; Some b1; Some b2; Some b3].
Proof.
  destruct (run_invariants settings ops) as (g & Hrun & Hwf & Hsh).
  exists g. split; [exact Hrun|]. intros p Hp.
  destruct (sh_play g Hsh p Hp) as (_ & [b Hb]).
  destruct (sh_bidding g Hsh b Hb) as ((Hlen & _) & _).
  pose proof (wf_bids g Hwf p b Hp Hb) as Hplaced.
  destruct (bids b) as [|[b0|] [|[b1|] [|[b2|] [|[b3|] [|]]]]] eqn:Hbids;
    try discriminate Hlen.
  - by exists b, b0, b1, b2, b3.
  - specialize (Hplaced 3). discriminate Hplaced.
  - specialize (Hplaced 2). discriminate Hplaced.
  - specialize (Hplaced 2). discriminate Hplaced.
  - specialize (Hplaced 1). discriminate Hplaced.
  - specialize (Hplaced 1). discriminate Hplaced.
  - specialize (Hplaced 1). discriminate Hplaced.
  - specialize (Hplaced 1). discriminate Hplaced.
  - specialize (Hplaced 0). discriminate Hplaced.
  - specialize (Hplaced 0). discriminate Hplaced.
  - specialize (Hplaced 0). discriminate Hplaced.
  - specialize (Hplaced 0). discriminate Hplaced.
  - specialize (Hplaced 0). discriminate Hplaced.
  - specialize (Hplaced 0). discriminate Hplaced.
  - specialize (Hplaced 0). discriminate Hplaced.
  - specialize (Hplaced 0). discriminate Hplaced.
Qed.

(** X9. In every state reached, no user is listed twice among the
    spectators of a game. *)
Theorem spectators_distinct (settings : Settings) (ops : list Op) :
  ∃ g, run (createGame settings) ops = Some g ∧ NoDup (id <$> spectators g).
Proof.
  destruct (run_invariants settings ops) as (g & Hrun & _ & Hsh).
  exists g. split; [exact Hrun|]. apply (sh_spectators g Hsh).
Qed.

(** ** A game is started once *)

Lemma step_keeps_started g op g' :
  step g op = Some g' → status g ≠ WAITING →
  status g' ≠ WAITING ∧ dealerIndex g' = dealerIndex g.
Proof.
  intros Hstep Hst. destruct op; simpl in Hstep.
  - injection Hstep as <-. unfold join. repeat case_match; simpl; done.
  - injection Hstep as <-. unfold spectate. repeat case_match; simpl; done.
  - injection Hstep as <-. unfold leave. repeat case_match; simpl; done.
  - injection Hstep as <-. repeat case_match; simpl; done.
  - injection Hstep as <-. unfold inviteBot. repeat case_match; simpl; done.
  - injection Hstep as <-. unfold inviteBotMidgame. repeat case_match; simpl; done.
  - injection Hstep as <-. unfold removeBot. repeat case_match; simpl; done.
  - injection Hstep as <-. unfold removeBotMidgame. repeat case_match; simpl; done.
  - injection Hstep as <-. unfold start.
    rewrite bool_decide_eq_false_2 by done. done.
  - destruct (make_bid g userId bid) as [r|] eqn:Hr; simpl in Hstep; [|discriminate].
    injection Hstep as <-. revert Hr. unfold make_bid.
    destruct (bidding g) as [b|]; [|by intros [= <-]].
    destruct (findIndex _ _) as [seat|]; [|by intros [= <-]].
    case_match; [by intros [= <-]|].
    case_match; [by intros [= <-]|].
    destruct (nextUnbid 4 _ _ _) as [next|]; simpl; [|discriminate].
    repeat case_match; intros [= <-]; simpl; done.
  - injection Hstep as <-. unfold play_card.
    repeat case_match; simpl; try done.
    match goal with |- context [completeHand ?g0] =>
      destruct (completeHand_frame g0) as (_ & _ & _ & _ & Hstat);
      destruct (completeHand_keeps g0) as (_ & Hdealer & _);
      simpl in Hstat, Hdealer
    end.
    split; [|exact Hdealer]. destruct Hstat as [-> | ->]; done.
Qed.

Lemma run_keeps_started ops : ∀ g g',
  run g ops = Some g' → status g ≠ WAITING →
  status g' ≠ WAITING ∧ dealerIndex g' = dealerIndex g.
Proof.
  induction ops as [|op ops IH]; intros g g'; simpl.
  - by intros [= <-].
  - destruct (step g op) as [g1|] eqn:Hstep; simpl; [|discriminate].
    intros Hrun Hst.
    destruct (step_keeps_started g op g1 Hstep Hst) as (Hst1 & Hd1).
    destruct (IH g1 g' Hrun Hst1) as (Hst' & Hd'). split; [done|congruence].
Qed.

(** X10. A game that has left status WAITING never returns to it and keeps
    its dealer: whatever requests follow, every later [start] is refused
    with the game unchanged, so no second deal and no dealer rotation ever
    take place. *)
Theorem started_game_is_not_restarted (g g' : Game) (ops : list Op)
    (debited : bool) (pick : nat) (rnd : nat → nat) :
  status g ≠ WAITING → run g ops = Some g' →
  status g' ≠ WAITING ∧ dealerIndex g' = dealerIndex g ∧
  start g' debited pick rnd = (Failed 400 "Game already started", g').
Proof.
  intros Hst Hrun.
  destruct (run_keeps_started ops g g' Hrun Hst) as (Hst' & Hd).
  split; [exact Hst'|]. split; [exact Hd|].
  unfold start. by rewrite bool_decide_eq_false_2.
Qed.

(** After the bidding of a started table the dealer is still Bob and a
    new start is refused. *)
Lemma started_game_is_not_restarted_example :
  dealerIndex (reached (createGame annSettings) (dealtAndBid 4 3 3 2) 0) = Some 1 ∧
  (start (reached (createGame annSettings) (dealtAndBid 4 3 3 2) 0) true 0 noShuffle).1
  = Failed 400 "Game already started".
Proof.
  destruct (started_game_is_not_restarted
              (start fullTable true 1 noShuffle).2
              (reached (createGame annSettings) (dealtAndBid 4 3 3 2) 0)
              (bidsAfterBob 4 3 3 2) true 0 noShuffle)
    as (_ & Hdealer & Hstart).
  - vm_compute. discriminate.
  - vm_compute. reflexivity.
  - split; [rewrite Hdealer; vm_compute; reflexivity|by rewrite Hstart].
Defined.

(** ** Bidding in turn *)

(** From the seat after the bidder, the search returns the first seat
    clockwise whose bid is still null, or the bidder's own seat when there
    is none. *)
Lemma nextUnbid_first_open a b c d (seat next : nat) :
  seat < 4 →
  nextUnbid 4 [a; b; c; d] seat ((seat + 1) mod 4) = Some next →
  ∃ n : nat, (1 ≤ n ≤ 4)%nat ∧ next = (seat + n) mod 4 ∧
       (∀ k : nat, (1 ≤ k < n)%nat → bidPlaced [a; b; c; d] ((seat + k) mod 4) = true) ∧
       (n < 4 → [a; b; c; d] !! next = Some None).
Proof.
  intros Hseat.
  destruct seat as [|[|[|[|seat]]]]; [| | | |lia];
    destruct a, b, c, d; vm_compute; intros [= <-].
  all: first
    [ exists 1; split; [lia|]; split; [reflexivity|]; split;
      [intros k Hk; lia|intros _; reflexivity]
    | exists 2; split; [lia|]; split; [reflexivity|]; split;
      [intros [|[|k]] Hk; try lia; reflexivity|intros _; reflexivity]
    | exists 3; split; [lia|]; split; [reflexivity|]; split;
      [intros [|[|[|k]]] Hk; try lia; reflexivity|intros _; reflexivity]
    | exists 4; split; [lia|]; split; [reflexivity|]; split;
      [intros [|[|[|[|k]]]] Hk; try lia; reflexivity|intros Hn; lia] ].
Qed.

(** X11. [make_bid] records a bid only for the seat on turn, and only if
    that seat has not bid: when it does anything at all, the requester
    holds the seat [currentBidderIndex], whose entry was null and now
    holds the bid, every other entry of [bids] being as before. Unless the
    four bids are then in, the turn passes to the first seat clockwise
    from the bidder whose bid is still null. Players, hands, status and
    dealer are never touched, and a request that is ignored leaves the
    whole game unchanged. *)
Theorem make_bid_records_and_rotates (g g' : Game) (userId : string) (bid : Z)
    (reply : Reply) (b : Bidding) :
  bidding g = Some b → length (bids b) = 4 → length (players g) = 4 →
  make_bid g userId bid = Some (reply, g') →
  players g' = players g ∧ hands g' = hands g ∧ status g' = status g ∧
  dealerIndex g' = dealerIndex g ∧
  (reply = Ignored → g' = g) ∧
  (reply ≠ Ignored →
     let seat := currentBidderIndex b in
     findIndex (hasId userId) (players g) = Some seat ∧
     bids b !! seat = Some None ∧
     ∃ b', bidding g' = Some b' ∧
           bids b' = <[seat := Some bid]> (bids b) ∧
           (reply = Emitted ["bidding_update"] →
              ∃ n : nat, (1 ≤ n < 4)%nat ∧
                   currentBidderIndex b' = (seat + n) mod 4 ∧
                   bids b' !! currentBidderIndex b' = Some None ∧
                   ∀ k : nat, (1 ≤ k < n)%nat → bidPlaced (bids b') ((seat + k) mod 4) = true)).
Proof.
  intros Hb Hlen Hplayers. unfold make_bid. rewrite Hb.
  destruct (findIndex _ _) as [seat|] eqn:Hfind;
    [|intros [= <- <-]; by repeat split].
  pose proof (findIndex_lt _ _ _ Hfind) as Hseat. rewrite Hplayers in Hseat.
  case_bool_decide as Hturn; simpl; [|intros [= <- <-]; by repeat split].
  destruct (bidPlaced (bids b) seat) eqn:Hplaced;
    [intros [= <- <-]; by repeat split|].
  assert (Hnull : bids b !! seat = Some None).
  { unfold bidPlaced in Hplaced. by destruct (bids b !! seat) as [[?|]|]. }
  destruct (bids b) as [|b0 [|b1 [|b2 [|b3 [|]]]]] eqn:Hbids; try discriminate Hlen.
  destruct (nextUnbid 4 _ _ _) as [next|] eqn:Hnext; simpl; [|discriminate].
  assert (Hins : ∃ a0 a1 a2 a3, <[seat:=Some bid]> [b0; b1; b2; b3] = [a0; a1; a2; a3]).
  { destruct seat as [|[|[|[|seat]]]]; [| | | |lia]; simpl; by eexists _, _, _, _. }
  destruct Hins as (a0 & a1 & a2 & a3 & Hins). rewrite Hins in *.
  destruct (nextUnbid_first_open a0 a1 a2 a3 seat next Hseat Hnext)
    as (n & Hn & Hnexteq & Hbetween & Hopen).
  subst seat.
  destruct (forallb _ _) eqn:Hall.
  - repeat case_match; intros [= <- <-]; simpl; repeat split; try done.
    all: try (eexists; split; [reflexivity|]; split; [done|]; discriminate).
  - intros [= <- <-]. simpl. repeat split; try done.
    eexists. split; [reflexivity|]. simpl. split; [done|]. intros _.
    assert (Hn4 : n ≠ 4).
    { intros ->. apply not_true_iff_false in Hall. apply Hall.
      apply forallb_forall. intros x Hx. apply bool_decide_eq_true.
      apply list_elem_of_In, list_elem_of_lookup in Hx as [i Hi].
      assert (Hi4 : i < 4) by (apply lookup_lt_Some in Hi; simpl in Hi; lia).
      destruct (decide (i = currentBidderIndex b)) as [->|Hne].
      - rewrite <- Hins in Hi.
        rewrite list_lookup_insert_eq in Hi by (simpl; lia). by injection Hi as <-.
      - specialize (Hbetween ((i + 4 - currentBidderIndex b) mod 4)).
        assert (Hk : (1 ≤ (i + 4 - currentBidderIndex b) mod 4 < 4)%nat).
        { pose proof (Nat.mod_upper_bound (i + 4 - currentBidderIndex b) 4).
          destruct i as [|[|[|[|i]]]]; [| | | |lia];
            destruct (currentBidderIndex b) as [|[|[|[|s]]]]; try lia;
            vm_compute; lia. }
        specialize (Hbetween Hk).
        replace ((currentBidderIndex b + (i + 4 - currentBidderIndex b) mod 4) mod 4)
          with i in Hbetween.
        + unfold bidPlaced in Hbetween. rewrite Hi in Hbetween.
          intros ->. discriminate Hbetween.
        + destruct i as [|[|[|[|i]]]]; [| | | |lia];
            destruct (currentBidderIndex b) as [|[|[|[|s]]]]; try lia;
            vm_compute; reflexivity. }
    exists n. split; [lia|]. split; [exact Hnexteq|]. split; [|exact Hbetween].
    apply Hopen. lia.
Qed.

(** Cat, first to bid at a table dealt by Bob, bids 3: the turn passes to
    Dan on seat 3. *)
Lemma make_bid_records_and_rotates_example :
  ∃ g', make_bid (start fullTable true 1 noShuffle).2 "cat" 3
        = Some (Emitted ["bidding_update"], g') ∧
        bidding g' = Some (mkBidding 3 [None; None; Some 3%Z; None]).
Proof.
  destruct (make_bid (start fullTable true 1 noShuffle).2 "cat" 3)
    as [[reply g']|] eqn:Hbid; [|vm_compute in Hbid; discriminate Hbid].
  destruct (make_bid_records_and_rotates
              (start fullTable true 1 noShuffle).2 g' "cat" 3 reply
              (mkBidding 2 [None; None; None; None]))
    as (_ & _ & _ & _ & _ & _); [vm_compute; reflexivity|reflexivity|reflexivity|exact Hbid|].
  exists g'. vm_compute in Hbid. injection Hbid as <- <-.
  split; vm_compute; reflexivity.
Defined.

(** ** Playing a card: refusals and effect *)

(** Membership in a list written out. *)
Ltac in_list := apply list_elem_of_In; simpl; tauto.

(** With a bidding and a play state the hand can always be scored. *)
Lemma calculatePartnersHandScore_returns g :
  is_Some (bidding g) → is_Some (play g) →
  ∃ summary, calculatePartnersHandScore g = Ok summary.
Proof.
  intros [b Hb] [p Hp]. unfold calculatePartnersHandScore. rewrite Hb, Hp.
  by eexists.
Qed.

Lemma completeHand_emits g :
  is_Some (bidding g) → is_Some (play g) →
  ∃ events, (completeHand g).1 = Emitted events.
Proof.
  intros Hb Hp.
  destruct (calculatePartnersHandScore_returns g Hb Hp) as [summary Hsum].
  unfold completeHand. rewrite Hsum. case_match; by eexists.
Qed.

(** What [play_card] does, case by case: either it refuses with one of
    five messages and returns the game as it was, or the requester holds
    the seat on turn and a card of the requested suit and rank, and that
    card leaves that hand. *)
Lemma play_card_cases g userId card :
  (∃ message,
     play_card g userId card = (Rejected message, g) ∧
     message ∈ ["Invalid game state"; "Player not found in game";
                "Not your turn"; "Invalid hand state"; "Card not in hand"]) ∨
  (∃ events p hs hand k held,
     (play_card g userId card).1 = Emitted events ∧
     play g = Some p ∧ hands g = Some hs ∧
     findIndex (hasId userId) (players g) = Some (currentPlayerIndex p) ∧
     hs !! currentPlayerIndex p = Some hand ∧
     hand !! k = Some held ∧ suit held = suit card ∧ rank held = rank card ∧
     hands (play_card g userId card).2
     = Some (<[currentPlayerIndex p := delete k hand]> hs) ∧
     players (play_card g userId card).2 = players g ∧
     bidding (play_card g userId card).2 = bidding g).
Proof.
  unfold play_card.
  destruct (play g) as [p|] eqn:Hp;
    [|left; eexists; split; [by repeat case_match|in_list]].
  destruct (hands g) as [hs|] eqn:Hh; [|left; eexists; split; [done|in_list]].
  destruct (bidding g) as [b|] eqn:Hb; [|left; eexists; split; [done|in_list]].
  destruct (findIndex _ (players g)) as [seat|] eqn:Hseat;
    [|left; eexists; split; [done|in_list]].
  case_bool_decide as Hturn; simpl; [|left; eexists; split; [done|in_list]].
  subst seat.
  destruct (hs !! currentPlayerIndex p) as [hand|] eqn:Hhand;
    [|left; eexists; split; [done|in_list]].
  destruct (findIndex _ hand) as [k|] eqn:Hk;
    [|left; eexists; split; [done|in_list]].
  right.
  destruct (findIndex_Some _ _ _ Hk) as (held & Hheld & Hsame).
  unfold sameCard in Hsame.
  apply andb_true_iff in Hsame as (Hsuit%bool_decide_eq_true & Hrank%bool_decide_eq_true).
  set (played := mkCard (suit card) (rank card) (Some (currentPlayerIndex p))).
  destruct (bool_decide (length (currentTrick p ++ [played]) = 4)).
  - destruct (determineTrickWinner_returns (currentTrick p) played) as [winner Hwin].
    rewrite Hwin. case_match.
    + match goal with |- context [completeHand ?g0] =>
        destruct (completeHand_frame g0) as (Hps & Hhs & Hbs & _ & _);
        destruct (completeHand_emits g0) as [events Hev];
          [simpl; rewrite Hb; by eexists|simpl; by eexists|];
        simpl in Hps, Hhs, Hbs
      end.
      exists events, p, hs, hand, k, held. rewrite Hev, Hps, Hhs, Hbs.
      by repeat split.
    + eexists _, p, hs, hand, k, held. simpl. by repeat split.
  - eexists _, p, hs, hand, k, held. simpl. by repeat split.
Qed.

(** ** The bag penalty and the running bag count *)













(** What that last card does. Team 2 takes eleven tricks, one of them
    Dan's: ten overtricks and the trick of the failed nil are 11 bags. The
    thirteenth trick leaves team 2 with 1 bag and 10 + 10 - 100 - 100 =
    -180 points. *)
Example bag_penalty_in_a_hand :
  let before := reached (createGame annSettings) (dealtAndBid 1 1 1 0) 51 in
  let after := reached (createGame annSettings) (dealtAndBid 1 1 1 0) 52 in
  ordinaryBids untilLastCard = true ∧
  run (createGame annSettings) untilLastCard = Some before ∧
  play_card before "bob" (mkCard Clubs RA None)
  = (Emitted ["trick_complete"; "hand_completed"; "game_over"], after) ∧
  (trickNumber <$> play before) = Some 12%nat ∧
  team2Bags before = None ∧ team2TotalScore before = None ∧
  handTally after = Some (mkTally 20 0, mkTally (-80) 11)%Z ∧
  team2Bags after = Some 1%Z ∧ team2TotalScore after = Some (-180)%Z ∧
  team1Bags after = Some 0%Z ∧ team1TotalScore after = Some 20%Z.
Proof. intros; by_evaluation. Qed.

(** ** Cards that the rules of play exclude *)

Lemma findIndex_held {A : Type} (p : A → bool) (l : list A) (x : A) :
  x ∈ l → p x = true → is_Some (findIndex p l).
Proof.
  intros Hin Hp. induction l as [|y l IH]; [by apply elem_of_nil in Hin|].
  simpl. destruct (p y) eqn:Hy; [by eexists|].
  apply elem_of_cons in Hin as [->|Hin]; [congruence|].
  destruct (IH Hin) as [k ->]. by eexists.
Qed.

(** C2, as the code has it. The handler has no test of the rules of play:
    for the player on the seat on turn every card of the seat's hand is
    accepted, whatever its suit and whatever has been played. The play is
    broadcast, the first card of the hand with the requested suit and rank
    leaves the hand, and the card lies in the trick in progress or, when
    it is the fourth, in the trick just resolved. *)
Theorem play_card_accepts_every_held_card (g : Game) (userId : string)
    (card : Card) (p : Play) (hs : list (list Card)) (hand : list Card)
    (held : Card) :
  play g = Some p → hands g = Some hs → is_Some (bidding g) →
  findIndex (hasId userId) (players g) = Some (currentPlayerIndex p) →
  hs !! currentPlayerIndex p = Some hand →
  held ∈ hand → suit held = suit card → rank held = rank card →
  let played := mkCard (suit card) (rank card) (Some (currentPlayerIndex p)) in
  ∃ events k p',
    (play_card g userId card).1 = Emitted events ∧
    findIndex (sameCard card) hand = Some k ∧
    hands (play_card g userId card).2
    = Some (<[currentPlayerIndex p := delete k hand]> hs) ∧
    play (play_card g userId card).2 = Some p' ∧
    (currentTrick p' = currentTrick p ++ [played] ∨
     ∃ winner,
       currentTrick p' = [] ∧
       tricks p' = tricks p ++ [mkTrick (currentTrick p ++ [played]) winner]).
Proof.
  intros Hp Hh [b Hb] Hwho Hhand Hin Hsuit Hrank played.
  destruct (findIndex_held (sameCard card) hand held Hin) as [k Hk].
  { unfold sameCard. by rewrite !bool_decide_eq_true_2. }
  unfold play_card.
  rewrite Hp, Hh, Hb, Hwho, bool_decide_eq_true_2 by done. cbn [negb].
  rewrite Hhand, Hk. fold played.
  destruct (bool_decide (length (currentTrick p ++ [played]) = 4)).
  - destruct (determineTrickWinner_returns (currentTrick p) played) as [winner Hwin].
    rewrite Hwin. case_match.
    + match goal with |- context [completeHand ?g0] =>
        destruct (completeHand_frame g0) as (_ & Hhs & _ & Hpl & _);
        destruct (completeHand_emits g0) as [events Hev];
          [simpl; rewrite Hb; by eexists|simpl; by eexists|];
        simpl in Hhs, Hpl
      end.
      eexists events, k, _. rewrite Hev, Hhs, Hpl.
      repeat split. right. by exists winner.
    + eexists _, k, _. simpl. repeat split. right. by exists winner.
  - eexists _, k, _. simpl. repeat split. by left.
Qed.

(** Dan, who holds four hearts, plays his three of spades on the five of
    hearts that Cat has led. *)
Lemma play_card_accepts_every_held_card_example :
  ∃ events, (play_card heartsLed "dan" threeOfSpades).1 = Emitted events.
Proof.
  edestruct (play_card_accepts_every_held_card heartsLed "dan" threeOfSpades)
    as (events & k & p' & Hev & _).
  - vm_compute. reflexivity.
  - vm_compute. reflexivity.
  - vm_compute. by eexists.
  - vm_compute. reflexivity.
  - vm_compute. reflexivity.
  - apply (list_elem_of_In _ threeOfSpades). vm_compute. tauto.
  - reflexivity.
  - reflexivity.
  - by exists events.
Defined.

(** No card of the hand fails with an error. After the bidding Cat
    (seat 2) leads: no trick is completed, so no spade has appeared, and
    her hand holds the five of hearts beside the two of spades; the two of
    spades is played all the same. When she leads the five of hearts
    instead, Dan (seat 3) holds the two of hearts; his three of spades,
    off the suit led, is played all the same. Both requests are answered
    with the broadcast of the play and change the game. *)
Lemma play_card_plays_excluded_cards :
  let g := reached (createGame annSettings) (dealtAndBid 4 3 3 2) 0 in
  run (createGame annSettings) (dealtAndBid 4 3 3 2) = Some g ∧
  run (createGame annSettings)
      (dealtAndBid 4 3 3 2 ++ [OpPlayCard "cat" fiveOfHearts]) = Some heartsLed ∧
  (∃ p hs hand,
     play g = Some p ∧ hands g = Some hs ∧ hs !! 2 = Some hand ∧
     currentPlayerIndex p = 2 ∧ currentTrick p = [] ∧ tricks p = [] ∧
     twoOfSpades ∈ hand ∧ fiveOfHearts ∈ hand ∧
     play_card g "cat" twoOfSpades
     = (Emitted ["play_update"],
        reached (createGame annSettings)
                (dealtAndBid 4 3 3 2 ++ [OpPlayCard "cat" twoOfSpades]) 0) ∧
     (currentTrick <$> play (play_card g "cat" twoOfSpades).2)
     = Some [mkCard Spades R2 (Some 2)] ∧
     (play_card g "cat" twoOfSpades).2 ≠ g) ∧
  (∃ p hs hand,
     play heartsLed = Some p ∧ hands heartsLed = Some hs ∧ hs !! 3 = Some hand ∧
     currentPlayerIndex p = 3 ∧ currentTrick p = [mkCard Hearts R5 (Some 2)] ∧
     threeOfSpades ∈ hand ∧ mkCard Hearts R2 None ∈ hand ∧
     (play_card heartsLed "dan" threeOfSpades).1 = Emitted ["play_update"] ∧
     (currentTrick <$> play (play_card heartsLed "dan" threeOfSpades).2)
     = Some [mkCard Hearts R5 (Some 2); mkCard Spades R3 (Some 3)] ∧
     (play_card heartsLed "dan" threeOfSpades).2 ≠ heartsLed).
Proof.
  intros g.
  split; [vm_compute; reflexivity|]. split; [vm_compute; reflexivity|].
  split.
  - eexists _, _, _.
    split; [vm_compute; reflexivity|]. split; [vm_compute; reflexivity|].
    split; [vm_compute; reflexivity|].
    repeat match goal with |- _ ∧ _ => split end;
      try (vm_compute; reflexivity).
    + apply list_elem_of_In. vm_compute. tauto.
    + apply list_elem_of_In. vm_compute. tauto.
    + intros Heq. apply (f_equal play) in Heq. vm_compute in Heq. discriminate Heq.
  - eexists _, _, _.
    split; [vm_compute; reflexivity|]. split; [vm_compute; reflexivity|].
    split; [vm_compute; reflexivity|].
    repeat match goal with |- _ ∧ _ => split end;
      try (vm_compute; reflexivity).
    + apply list_elem_of_In. vm_compute. tauto.
    + apply list_elem_of_In. vm_compute. tauto.
    + intros Heq. apply (f_equal play) in Heq. vm_compute in Heq. discriminate Heq.
Qed.

(** X12. A refused [play_card] changes nothing: whenever the handler
    answers with an error, the message is one of "Invalid game state",
    "Player not found in game", "Not your turn", "Invalid hand state" and
    "Card not in hand", and the game is exactly as before. *)
Theorem play_card_refusal_leaves_game (g : Game) (userId : string) (card : Card)
    (message : string) :
  (play_card g userId card).1 = Rejected message →
  (play_card g userId card).2 = g ∧
  message ∈ ["Invalid game state"; "Player not found in game";
             "Not your turn"; "Invalid hand state"; "Card not in hand"].
Proof.
  intros Hrej.
  destruct (play_card_cases g userId card)
    as [(msg & Heq & Hmsg)|(events & p & hs & hand & k & held & Hev & _)].
  - rewrite Heq in *. simpl in *. by injection Hrej as <-.
  - rewrite Hev in Hrej. discriminate Hrej.
Qed.

(** Ann plays out of turn at the start of the first trick. *)
Lemma play_card_refusal_example :
  (play_card (reached (createGame annSettings) (dealtAndBid 4 3 3 2) 0)
             "ann" twoOfSpades).2
  = reached (createGame annSettings) (dealtAndBid 4 3 3 2) 0.
Proof.
  apply (play_card_refusal_leaves_game _ "ann" twoOfSpades "Not your turn").
  vm_compute. reflexivity.
Defined.

(** X13. An accepted [play_card] comes from the player on the seat on
    turn and takes one card of the requested suit and rank out of that
    seat's hand: the other hands, the roster and the bids are unchanged. *)
Theorem play_card_takes_card_of_seat_on_turn (g : Game) (userId : string)
    (card : Card) (events : list string) :
  (play_card g userId card).1 = Emitted events →
  ∃ p hs hand k held,
    play g = Some p ∧ hands g = Some hs ∧
    findIndex (hasId userId) (players g) = Some (currentPlayerIndex p) ∧
    hs !! currentPlayerIndex p = Some hand ∧
    hand !! k = Some held ∧ suit held = suit card ∧ rank held = rank card ∧
    hands (play_card g userId card).2
    = Some (<[currentPlayerIndex p := delete k hand]> hs) ∧
    players (play_card g userId card).2 = players g ∧
    bidding (play_card g userId card).2 = bidding g.
Proof.
  intros Hacc.
  destruct (play_card_cases g userId card)
    as [(msg & Heq & _)|(ev & p & hs & hand & k & held & _ & Hrest)].
  - rewrite Heq in Hacc. discriminate Hacc.
  - by exists p, hs, hand, k, held.
Qed.

(** Cat, on lead, plays her five of hearts. *)
Lemma play_card_takes_card_example :
  findIndex (hasId "cat")
            (players (reached (createGame annSettings) (dealtAndBid 4 3 3 2) 0))
  = Some 2.
Proof.
  destruct (play_card_takes_card_of_seat_on_turn
              (reached (createGame annSettings) (dealtAndBid 4 3 3 2) 0)
              "cat" fiveOfHearts ["play_update"])
    as (p & hs & hand & k & held & Hp & _ & Hseat & _).
  - vm_compute. reflexivity.
  - rewrite Hseat. f_equal. vm_compute in Hp. by injection Hp as <-.
Defined.

(** ** The hand score *)

Lemma countTricks_shape ts :
  ∃ c0 c1 c2 c3,
    countTricks ts = [c0; c1; c2; c3] ∧
    (0 ≤ c0 ∧ 0 ≤ c1 ∧ 0 ≤ c2 ∧ 0 ≤ c3)%Z ∧
    (Forall (fun t => winnerIndex t < 4) ts →
     (c0 + c1 + c2 + c3)%Z = Z.of_nat (length ts)).
Proof.
  unfold countTricks.
  assert (Hgen : ∀ a0 a1 a2 a3 : Z,
    (0 ≤ a0 ∧ 0 ≤ a1 ∧ 0 ≤ a2 ∧ 0 ≤ a3)%Z →
    ∃ c0 c1 c2 c3,
      foldl (fun acc trick => alter Z.succ (winnerIndex trick) acc) [a0; a1; a2; a3] ts
      = [c0; c1; c2; c3] ∧
      (0 ≤ c0 ∧ 0 ≤ c1 ∧ 0 ≤ c2 ∧ 0 ≤ c3)%Z ∧
      (Forall (fun t => winnerIndex t < 4) ts →
       (c0 + c1 + c2 + c3)%Z = (a0 + a1 + a2 + a3 + Z.of_nat (length ts))%Z)).
  { induction ts as [|t ts IH]; intros a0 a1 a2 a3 Ha; simpl.
    - exists a0, a1, a2, a3. split; [done|]. split; [done|]. intros _. lia.
    - destruct (winnerIndex t) as [|[|[|[|w]]]] eqn:Hw; simpl.
      + destruct (IH (Z.succ a0) a1 a2 a3) as (c0 & c1 & c2 & c3 & Heq & Hpos & Hsum);
          [lia|].
        exists c0, c1, c2, c3. split; [done|]. split; [done|].
        intros Hall. inversion Hall; subst. rewrite Hsum by done. lia.
      + destruct (IH a0 (Z.succ a1) a2 a3) as (c0 & c1 & c2 & c3 & Heq & Hpos & Hsum);
          [lia|].
        exists c0, c1, c2, c3. split; [done|]. split; [done|].
        intros Hall. inversion Hall; subst. rewrite Hsum by done. lia.
      + destruct (IH a0 a1 (Z.succ a2) a3) as (c0 & c1 & c2 & c3 & Heq & Hpos & Hsum);
          [lia|].
        exists c0, c1, c2, c3. split; [done|]. split; [done|].
        intros Hall. inversion Hall; subst. rewrite Hsum by done. lia.
      + destruct (IH a0 a1 a2 (Z.succ a3)) as (c0 & c1 & c2 & c3 & Heq & Hpos & Hsum);
          [lia|].
        exists c0, c1, c2, c3. split; [done|]. split; [done|].
        intros Hall. inversion Hall; subst. rewrite Hsum by done. lia.
      + destruct (IH a0 a1 a2 a3) as (c0 & c1 & c2 & c3 & Heq & Hpos & Hsum);
          [lia|].
        exists c0, c1, c2, c3. split; [done|]. split; [done|].
        intros Hall. inversion Hall; subst. lia. }
  destruct (Hgen 0 0 0 0)%Z as (c0 & c1 & c2 & c3 & Heq & Hpos & Hsum); [lia|].
  exists c0, c1, c2, c3. split; [done|]. split; [done|].
  intros Hall. rewrite Hsum by done. lia.
Qed.

(** X14. The tricks credited to the two teams add up to the number of
    tricks played, provided every trick was won by one of seats 0..3 (as
    every trick resolved by [play_card] is). *)
Theorem team_tricks_add_up (ts : list Trick) :
  Forall (fun t => winnerIndex t < 4) ts →
  (teamTricks (countTricks ts) team1 + teamTricks (countTricks ts) team2)%Z
  = Z.of_nat (length ts).
Proof.
  intros Hall.
  destruct (countTricks_shape ts) as (c0 & c1 & c2 & c3 & -> & _ & Hsum).
  specialize (Hsum Hall). unfold teamTricks, team1, team2. simpl. lia.
Qed.

(** The two tricks of the specification's examples, both won by seat 2,
    count for team 1. *)
Lemma team_tricks_add_up_example :
  (teamTricks (countTricks [mkTrick exampleClubsTrick 2; mkTrick exampleDiamondsTrick 2])
              team1
   + teamTricks (countTricks [mkTrick exampleClubsTrick 2; mkTrick exampleDiamondsTrick 2])
                team2)%Z
  = 2%Z.
Proof.
  apply (team_tricks_add_up [mkTrick exampleClubsTrick 2; mkTrick exampleDiamondsTrick 2]).
  repeat constructor.
Defined.

Lemma contract_bags bidTotal tricksTotal : (0 ≤ bags (contract bidTotal tricksTotal))%Z.
Proof.
  unfold contract. destruct (Z.leb_spec bidTotal tricksTotal); simpl; lia.
Qed.

Lemma nilBonus_bags bid tricksWon t :
  (0 ≤ tricksWon)%Z → (0 ≤ bags t)%Z → (0 ≤ bags (nilBonus bid tricksWon t))%Z.
Proof.
  intros Hw Ht. unfold nilBonus.
  repeat case_match; simpl; lia.
Qed.

Lemma bagPenalty_bags t : (0 ≤ bags t)%Z → (0 ≤ bags (bagPenalty t))%Z.
Proof.
  intros Ht. unfold bagPenalty. destruct (Z.leb_spec 10 (bags t)); simpl; lia.
Qed.

Lemma nilRound_bags bs perPlayer acc i :
  Forall (fun c => 0 ≤ c)%Z perPlayer →
  (0 ≤ bags acc.1)%Z → (0 ≤ bags acc.2)%Z →
  (0 ≤ bags (nilRound bs perPlayer acc i).1)%Z ∧
  (0 ≤ bags (nilRound bs perPlayer acc i).2)%Z.
Proof.
  intros Hpos H1 H2. unfold nilRound.
  assert (Hw : (0 ≤ default 0 (perPlayer !! i))%Z).
  { destruct (perPlayer !! i) as [c|] eqn:Hc; simpl; [|lia].
    rewrite Forall_forall in Hpos. apply Hpos.
    by eapply list_elem_of_lookup_2. }
  case_bool_decide; simpl; split; try done; by apply nilBonus_bags.
Qed.

(** X15. The bags reported by [calculatePartnersHandScore] are never
    negative, whatever the bids (nil, blind nil or any number) and whoever
    won the tricks. *)
Theorem hand_bags_are_not_negative (g : Game) (summary : Summary.t) :
  calculatePartnersHandScore g = Ok summary →
  (0 ≤ Summary.team1Bags summary)%Z ∧ (0 ≤ Summary.team2Bags summary)%Z.
Proof.
  unfold calculatePartnersHandScore.
  destruct (bidding g) as [b|]; [|discriminate].
  destruct (play g) as [p|]; [|discriminate].
  intros [= <-]. simpl.
  destruct (countTricks_shape (tricks p)) as (c0 & c1 & c2 & c3 & Hcount & Hpos & _).
  rewrite Hcount.
  assert (Hall : Forall (fun c => 0 ≤ c)%Z [c0; c1; c2; c3]).
  { repeat constructor; lia. }
  set (t1 := contract _ _). set (t2 := contract _ _).
  pose proof (contract_bags (teamBid (bids b) team1) (teamTricks [c0; c1; c2; c3] team1)) as H1.
  pose proof (contract_bags (teamBid (bids b) team2) (teamTricks [c0; c1; c2; c3] team2)) as H2.
  fold t1 in H1. fold t2 in H2.
  unfold team1, team2. simpl.
  destruct (nilRound_bags (bids b) [c0; c1; c2; c3] (t1, t2) 0 Hall H1 H2) as (A1 & A2).
  destruct (nilRound_bags (bids b) [c0; c1; c2; c3] _ 2 Hall A1 A2) as (B1 & B2).
  destruct (nilRound_bags (bids b) [c0; c1; c2; c3] _ 1 Hall B1 B2) as (C1 & C2).
  destruct (nilRound_bags (bids b) [c0; c1; c2; c3] _ 3 Hall C1 C2) as (D1 & D2).
  split; by apply bagPenalty_bags.
Qed.

(** The hand in which Cat bids blind nil. *)
Lemma hand_bags_are_not_negative_example :
  (0 ≤ Summary.team1Bags (Summary.mk (-180) 83 1 3 [1; 10; 1; 1]%Z))%Z ∧
  (0 ≤ Summary.team2Bags (Summary.mk (-180) 83 1 3 [1; 10; 1; 1]%Z))%Z.
Proof.
  apply (hand_bags_are_not_negative
           (reached (createGame annSettings) (dealtAndBid 3 5 (-1) 3) 52)
           (Summary.mk (-180) 83 1 3 [1; 10; 1; 1]%Z)).
  vm_compute. reflexivity.
Defined.

Lemma nilBonus_positive bid tricksWon t :
  (0 < bid)%Z → nilBonus (Some bid) tricksWon t = t.
Proof. intros Hbid. unfold nilBonus. destruct bid; try done; lia. Qed.

#[local] Arguments nilBonus : simpl never.

Lemma plain_contract bidTotal tricksTotal :
  (score (bagPenalty (contract bidTotal tricksTotal)),
   bags (bagPenalty (contract bidTotal tricksTotal)))
  = plainScore bidTotal tricksTotal.
Proof.
  unfold plainScore, bagPenalty, contract.
  destruct (Z.leb_spec bidTotal tricksTotal), (Z.ltb_spec tricksTotal bidTotal);
    simpl; try lia.
  - destruct (Z.leb_spec 10 (tricksTotal - bidTotal)),
             (Z.ltb_spec (tricksTotal - bidTotal) 10); simpl; try lia; f_equal; lia.
  - f_equal; lia.
Qed.

(** X16. When every seat bids a number of tricks from 1 to 13 (no nil, no
    blind nil; on such bids the arithmetic of the code is exact), a team
    that takes fewer tricks than the sum of its two bids scores minus ten
    times that sum and no bags; otherwise it scores ten times the sum plus
    one point per overtrick, the overtricks being its bags, and if they
    are ten or more the hand itself costs 100 points and ten of the
    bags. *)
Theorem hand_score_without_nil (g : Game) (b : Bidding) (p : Play)
    (b0 b1 b2 b3 : Z) (summary : Summary.t) :
  bidding g = Some b → play g = Some p →
  bids b = [Some b0; Some b1; Some b2; Some b3] →
  (0 < b0 ≤ 13)%Z → (0 < b1 ≤ 13)%Z → (0 < b2 ≤ 13)%Z → (0 < b3 ≤ 13)%Z →
  calculatePartnersHandScore g = Ok summary →
  (Summary.team1Score summary, Summary.team1Bags summary)
  = plainScore (b0 + b2) (teamTricks (countTricks (tricks p)) team1) ∧
  (Summary.team2Score summary, Summary.team2Bags summary)
  = plainScore (b1 + b3) (teamTricks (countTricks (tricks p)) team2).
Proof.
  intros Hb Hp Hbids H0 H1 H2 H3. unfold calculatePartnersHandScore.
  rewrite Hb, Hp, Hbids. intros [= <-].
  cbn [Summary.team1Score Summary.team1Bags Summary.team2Score Summary.team2Bags].
  rewrite !nilBonus_positive by lia.
  replace (teamBid [Some b0; Some b1; Some b2; Some b3] team1) with (b0 + b2)%Z
    by (unfold team1; rewrite teamBid_sum; reflexivity).
  replace (teamBid [Some b0; Some b1; Some b2; Some b3] team2) with (b1 + b3)%Z
    by (unfold team2; rewrite teamBid_sum; reflexivity).
  split; apply plain_contract.
Qed.

(** The specification's example: bids 4 and 3 with 9 tricks score 72 with
    2 bags. In the hand played with bids 1, 5, 1, 3, team 2 bids 5 and 3
    and is scored by the same rule. *)
Lemma hand_score_without_nil_example :
  plainScore (4 + 3) 9 = (72, 2)%Z ∧
  let g := reached (createGame annSettings) (dealtAndBid 1 5 1 3) 52 in
  let p := default (mkPlay 0 [] [] 0) (play g) in
  (Summary.team2Score (Summary.mk 20 83 0 3 [1; 10; 1; 1]%Z),
   Summary.team2Bags (Summary.mk 20 83 0 3 [1; 10; 1; 1]%Z))
  = plainScore (5 + 3) (teamTricks (countTricks (tricks p)) team2).
Proof.
  split; [reflexivity|]. intros g p.
  refine (proj2 (hand_score_without_nil g
                   (mkBidding 1 [Some 1; Some 5; Some 1; Some 3]%Z) p 1 5 1 3
                   (Summary.mk 20 83 0 3 [1; 10; 1; 1]%Z) _ _ _ _ _ _ _ _));
    try lia; vm_compute; reflexivity.
Defined.

(** ** The roster: joining, leaving, bots *)

(** X17. [join] seats the player exactly when the identity is not yet
    seated, the user exists with at least the buy-in in coins, and the
    requested seat is one of 0..3 and empty. Then only that seat changes
    and receives the new human player; in every other case the game is
    left unchanged. *)
Theorem join_seats_exactly_when_allowed (g : Game) (seat : option Z)
    (playerId name image : string) (db : UserLookup) :
  let r := join g seat playerId name image db in
  (succeeded r.1 ↔
     (playerId ∉ seatedIds (players g)) ∧
     (∃ coins, db = UserCoins coins ∧ (buyIn g ≤ coins)%Z) ∧
     (∃ s, seat = Some s ∧ (0 ≤ s < 4)%Z ∧ players g !! Z.to_nat s = Some None)) ∧
  (¬ succeeded r.1 → r.2 = g) ∧
  (succeeded r.1 →
     ∃ s, seat = Some s ∧ r.1 = Sent r.2 ∧
          r.2 = setPlayers
                  (<[Z.to_nat s :=
                       Some (mkPlayer playerId (orElse name "Unknown")
                                      (orElse image "/default-pfp.jpg") human seat)]>
                     (players g)) g).
Proof.
  unfold join.
  pose proof (existsb_hasId playerId (players g)) as Hseated.
  pose proof succeeded_Sent as HSent.
  pose proof succeeded_Failed as HFailed.
  destruct (existsb (hasId playerId) (players g)) eqn:Hex; simpl.
  { split; [|split]; try done.
    - split; [intros Hok; by apply HFailed in Hok|].
      intros (Hfresh & _). destruct Hfresh. by apply Hseated.
    - intros H. by apply HFailed in H. }
  assert (Hfresh : playerId ∉ seatedIds (players g)).
  { intros Hin. apply Hseated in Hin. discriminate Hin. }
  destruct db as [| |coins]; simpl.
  1,2: split; [|split]; try done;
    [split; [intros Hok; by apply HFailed in Hok|];
     intros (_ & (coins & Hdb & _) & _); discriminate Hdb
    |intros Hok; by apply HFailed in Hok].
  destruct (Z.ltb_spec coins (buyIn g)) as [Hpoor|Hrich]; simpl.
  { split; [|split]; try done.
    - split; [intros Hok; by apply HFailed in Hok|].
      intros (_ & (coins' & [= <-] & Hle) & _). lia.
    - intros H. by apply HFailed in H. }
  destruct seat as [s|]; simpl.
  2:{ split; [|split]; try done.
      - split; [intros Hok; by apply HFailed in Hok|].
        intros (_ & _ & (s & Hs & _)). discriminate Hs.
      - intros H. by apply HFailed in H. }
  destruct (Z.leb_spec 0 s) as [Hs0|Hs0], (Z.ltb_spec s 4) as [Hs4|Hs4]; simpl.
  2,3,4: split; [|split]; try done;
    [split; [intros Hok; by apply HFailed in Hok|];
     intros (_ & _ & (s' & [= <-] & Hrange & _)); lia
    |intros Hok; by apply HFailed in Hok].
  destruct (players g !! Z.to_nat s) as [[q|]|] eqn:Hq; simpl.
  1,3: split; [|split]; try done;
    [split; [intros Hok; by apply HFailed in Hok|];
     intros (_ & _ & (s' & [= <-] & _ & Hempty)); congruence
    |intros Hok; by apply HFailed in Hok].
  split; [|split].
  - split; [|intros _; apply HSent].
    intros _. split; [exact Hfresh|]. split; [exists coins; by split|].
    exists s. by repeat split.
  - intros Hno. destruct Hno. apply HSent.
  - intros _. by exists s.
Qed.

(** X18. Neither remove-bot handler ever unseats a human: every seat
    that holds a human holds the same player afterwards. When a removal
    succeeds, the target seat held a bot and is now empty. Before the game
    the requester's identity is then the one on seat 0: the host's, or
    none at all when seat 0 is empty and the request names no requester.
    After the start the requester is then named and is the occupant of
    the partner seat. *)
Theorem remove_bot_only_removes_bots (g : Game) (seatIndex : Z)
    (requesterId : option string) :
  let r1 := removeBot g seatIndex requesterId in
  let r2 := removeBotMidgame g seatIndex requesterId in
  (∀ i q, seatAt (players g) i = Some q → type q = human →
          seatAt (players r1.2) i = Some q ∧ seatAt (players r2.2) i = Some q) ∧
  (succeeded r1.1 →
     status g = WAITING ∧ id <$> seatAt (players g) 0 = requesterId ∧
     hasType bot (seatAt (players g) (Z.to_nat seatIndex)) = true ∧
     r1.2 = setPlayers (<[Z.to_nat seatIndex := None]> (players g)) g) ∧
  (succeeded r2.1 →
     status g ≠ WAITING ∧
     (∃ requester,
        requesterId = Some requester ∧
        heldBy g ((Z.to_nat seatIndex + 2) mod 4) requester) ∧
     hasType bot (seatAt (players g) (Z.to_nat seatIndex)) = true ∧
     r2.2 = setPlayers (<[Z.to_nat seatIndex := None]> (players g)) g).
Proof.
  pose proof succeeded_Failed as HFailed.
  assert (Hpartner : ∀ i, notHeldBy g i requesterId = false →
            ∃ requester, requesterId = Some requester ∧ heldBy g i requester).
  { intros i. unfold notHeldBy, heldBy.
    destruct (seatAt (players g) i) as [q|]; [|discriminate].
    rewrite negb_false_iff, bool_decide_eq_true. intros <-.
    exists (id q). split; [done|]. by exists q. }
  assert (Hkeep : ∀ i q,
            seatAt (players g) i = Some q → type q = human →
            notABot g seatIndex = false →
            seatAt (<[Z.to_nat seatIndex := None]> (players g)) i = Some q).
  { intros i q Hq Hhuman Hbot. unfold notABot in Hbot.
    apply orb_false_iff in Hbot as (_ & Hbot). apply negb_false_iff in Hbot.
    destruct (decide (i = Z.to_nat seatIndex)) as [->|Hne].
    - rewrite Hq in Hbot. simpl in Hbot. apply bool_decide_eq_true in Hbot. congruence.
    - unfold seatAt in *. by rewrite list_lookup_insert_ne. }
  unfold removeBot, removeBotMidgame.
  destruct (bool_decide (status g = WAITING)) eqn:Hst; simpl;
    [apply bool_decide_eq_true in Hst|apply bool_decide_eq_false in Hst].
  - destruct (notHost g requesterId) eqn:Hh; simpl;
      [|destruct (notABot g seatIndex) eqn:Hb; simpl].
    all: split; [intros i q Hq Hhuman; split; auto|].
    all: split; intros Hok; try (by apply HFailed in Hok).
    repeat split; try done.
    + unfold notHost in Hh. apply bool_decide_eq_false in Hh.
      by apply dec_stable in Hh.
    + unfold notABot in Hb. apply orb_false_iff in Hb as (_ & Hb).
      by apply negb_false_iff in Hb.
  - destruct (notABot g seatIndex) eqn:Hb; simpl;
      [|destruct (notHeldBy g ((Z.to_nat seatIndex + 2) mod 4) requesterId) eqn:Hh; simpl].
    all: split; [intros i q Hq Hhuman; split; auto|].
    all: split; intros Hok; try (by apply HFailed in Hok).
    split; [done|]. split; [by apply Hpartner|]. split; [|done].
    unfold notABot in Hb. apply orb_false_iff in Hb as (_ & Hb).
    by apply negb_false_iff in Hb.
Qed.

Lemma findIndex_absent {A : Type} (p : A → bool) (l : list A) :
  findIndex p l = None → existsb p l = false.
Proof.
  induction l as [|x l IH]; simpl; [done|].
  destruct (p x); [discriminate|].
  destruct (findIndex p l); [discriminate|]. intros _. by apply IH.
Qed.

(** Emptying an occupied seat removes exactly that identity. *)
Lemma seatedIds_vacate ps i q :
  ps !! i = Some (Some q) → seatedIds ps ≡ₚ id q :: seatedIds (<[i := None]> ps).
Proof.
  intros Hq.
  rewrite <- (seatedIds_insert_empty (<[i := None]> ps) i q).
  - by rewrite list_insert_insert_eq, list_insert_id.
  - apply list_lookup_insert_eq. by eapply lookup_lt_Some.
Qed.

(** The socket event [leave_game] at two tables. When Bob leaves the full
    table three humans remain and the game stays in the store. When Ann
    leaves the table she has just created no human remains: the game is
    taken out of the store and the list of games is broadcast once
    more. *)
Example leave_game_last_human :
  (leave_game fullTable "bob").1 = Emitted ["game_update"; "games_updated"] ∧
  leave_game_removes fullTable "bob" = false ∧
  (leave_game (createGame annSettings) "ann").1
  = Emitted ["game_update"; "games_updated"; "games_updated"] ∧
  leave_game_removes (createGame annSettings) "ann" = true ∧
  (leave_game (createGame annSettings) "bob").1 = Ignored.
Proof. by_evaluation. Qed.

(** X19. [leave] always answers with the game and touches neither the
    hands nor the bidding, the play state or the status: the cards dealt
    to a seat stay with the seat when its player leaves. Every player
    with another identity keeps the seat; and when the seated identities
    (respectively the spectators' identities) are pairwise distinct, the
    user is afterwards on no seat (respectively not among the
    spectators). *)
Theorem leave_removes_the_user (g : Game) (userId : string) :
  let r := leave g userId in
  r.1 = Sent r.2 ∧
  hands r.2 = hands g ∧ bidding r.2 = bidding g ∧ play r.2 = play g ∧
  status r.2 = status g ∧
  (∀ i q, seatAt (players g) i = Some q → id q ≠ userId →
          seatAt (players r.2) i = Some q) ∧
  (NoDup (seatedIds (players g)) → userId ∉ seatedIds (players r.2)) ∧
  (NoDup (id <$> spectators g) → userId ∉ id <$> spectators r.2).
Proof.
  unfold leave. cbn [fst snd].
  set (g1 := match findIndex (hasId userId) (players g) with
             | Some playerIdx => setPlayers (<[playerIdx:=None]> (players g)) g
             | None => g
             end).
  assert (Hframe : hands g1 = hands g ∧ bidding g1 = bidding g ∧ play g1 = play g ∧
                   status g1 = status g ∧ spectators g1 = spectators g).
  { unfold g1. by case_match. }
  destruct Hframe as (Hh & Hb & Hp & Hst & Hsp).
  assert (Hothers : ∀ i q, seatAt (players g) i = Some q → id q ≠ userId →
                           seatAt (players g1) i = Some q).
  { intros i q Hq Hne. unfold g1.
    destruct (findIndex _ _) as [idx|] eqn:Hidx; [|done]. simpl.
    destruct (findIndex_Some _ _ _ Hidx) as (x & Hx & Hid).
    destruct (decide (i = idx)) as [->|Hneq].
    - unfold seatAt in Hq. rewrite Hx in Hq. destruct x as [q'|]; [|done].
      injection Hq as ->. simpl in Hid. apply bool_decide_eq_true in Hid. done.
    - unfold seatAt in *. by rewrite list_lookup_insert_ne. }
  assert (Hgone : NoDup (seatedIds (players g)) → userId ∉ seatedIds (players g1)).
  { intros Hnd. unfold g1.
    destruct (findIndex _ _) as [idx|] eqn:Hidx.
    - simpl. destruct (findIndex_Some _ _ _ Hidx) as (x & Hx & Hid).
      destruct x as [q|]; [|done]. simpl in Hid. apply bool_decide_eq_true in Hid.
      rewrite (seatedIds_vacate _ _ _ Hx), Hid in Hnd.
      by apply NoDup_cons in Hnd as (Hnotin & _).
    - apply findIndex_absent in Hidx. intros Hin.
      apply existsb_hasId in Hin. congruence. }
  assert (Hspec : ∀ g2,
            g2 = match findIndex (fun s => bool_decide (id s = userId)) (spectators g1) with
                 | Some specIdx => setSpectators (delete specIdx (spectators g1)) g1
                 | None => g1
                 end →
            hands g2 = hands g1 ∧ bidding g2 = bidding g1 ∧ play g2 = play g1 ∧
            status g2 = status g1 ∧ players g2 = players g1 ∧
            (NoDup (id <$> spectators g1) → userId ∉ id <$> spectators g2)).
  { intros g2 ->. destruct (findIndex _ (spectators g1)) as [idx|] eqn:Hidx; simpl.
    - repeat split. intros Hnd.
      destruct (findIndex_Some _ _ _ Hidx) as (x & Hx & Hid).
      apply bool_decide_eq_true in Hid.
      rewrite (delete_Permutation _ _ _ Hx) in Hnd. simpl in Hnd. rewrite Hid in Hnd.
      by apply NoDup_cons in Hnd as (Hnotin & _).
    - repeat split. intros _. apply findIndex_absent in Hidx.
      by apply existsb_spectator. }
  destruct (Hspec _ eq_refl) as (Hh2 & Hb2 & Hp2 & Hst2 & Hps2 & Hsp2).
  split; [reflexivity|].
  rewrite Hh2, Hb2, Hp2, Hst2, Hps2. repeat split; try done.
  intros Hnd. apply Hsp2. by rewrite Hsp.
Qed.

(** X20. Seating a bot and removing it again restores the seats: at a
    table of four seats, when the host's invitation for a seat succeeds,
    the host's removal for the same seat succeeds too and the seat array
    is the one from before the invitation. *)
Theorem invite_then_remove_bot_restores_seats (g : Game) (seatIndex : Z)
    (requesterId uuid : string) :
  length (players g) = 4 →
  succeeded (inviteBot g seatIndex (Some requesterId) uuid).1 →
  let g1 := (inviteBot g seatIndex (Some requesterId) uuid).2 in
  succeeded (removeBot g1 seatIndex (Some requesterId)).1 ∧
  players (removeBot g1 seatIndex (Some requesterId)).2 = players g.
Proof.
  intros Hlen. unfold inviteBot.
  pose proof succeeded_Failed as HFailed.
  destruct (bool_decide (status g = WAITING)) eqn:Hst; simpl;
    [|intros Hok; by apply HFailed in Hok].
  destruct (notHost g (Some requesterId)) eqn:Hhost; simpl;
    [intros Hok; by apply HFailed in Hok|].
  destruct (seatRefused g seatIndex) eqn:Hseat; simpl;
    [intros Hok; by apply HFailed in Hok|].
  intros _.
  unfold seatRefused in Hseat.
  apply orb_false_iff in Hseat as (Hrange & Hempty).
  apply orb_false_iff in Hrange as (Hlo%Z.ltb_ge & Hhi%Z.ltb_ge).
  apply bool_decide_eq_false in Hempty.
  assert (Hidx : Z.to_nat seatIndex < 4) by lia.
  assert (Hnone : players g !! Z.to_nat seatIndex = Some None).
  { destruct (lookup_lt_is_Some_2 (players g) (Z.to_nat seatIndex)) as [x Hx]; [lia|].
    unfold seatAt in Hempty. rewrite Hx in *. destruct x; [|done].
    destruct Hempty. by eexists. }
  assert (Hne0 : Z.to_nat seatIndex ≠ 0).
  { intros H0. apply notHost_false in Hhost as (q & Hq & _).
    unfold seatAt in Hq. rewrite H0 in Hnone. by rewrite Hnone in Hq. }
  unfold removeBot. simpl. rewrite Hst. simpl.
  assert (Hhost' : notHost
            (setIsBotGame
               (existsb (hasType bot)
                  (<[Z.to_nat seatIndex:=Some (botPlayer seatIndex uuid)]> (players g)))
               (setPlayers
                  (<[Z.to_nat seatIndex:=Some (botPlayer seatIndex uuid)]> (players g)) g))
            (Some requesterId) = false).
  { unfold notHost, seatAt in *. simpl.
    by rewrite list_lookup_insert_ne. }
  rewrite Hhost'. simpl.
  unfold notABot. simpl.
  replace (seatIndex <? 0)%Z with false by (symmetry; by apply Z.ltb_ge).
  replace (3 <? seatIndex)%Z with false by (symmetry; by apply Z.ltb_ge).
  unfold seatAt. rewrite list_lookup_insert_eq by lia. simpl.
  split; [apply succeeded_Sent|].
  rewrite list_insert_insert_eq. by apply list_insert_id.
Qed.

(** Ann seats a bot on seat 2 of her new table and removes it again. *)
Lemma invite_then_remove_bot_example :
  players (removeBot (inviteBot (createGame annSettings) 2 (Some "ann") "u1").2
                     2 (Some "ann")).2
  = players (createGame annSettings).
Proof.
  apply (invite_then_remove_bot_restores_seats (createGame annSettings) 2 "ann" "u1").
  - reflexivity.
  - vm_compute. by eexists.
Defined.

(** ** The cards a player may play *)

Lemma forallb_isSpade (hand : list Client.Card) :
  forallb Client.isSpade hand = true ↔
  ∀ c, c ∈ hand → Client.suit c = Client.spadeSymbol.
Proof.
  rewrite forallb_forall. unfold Client.isSpade. split.
  - intros H c Hc. apply list_elem_of_In, H in Hc. by apply bool_decide_eq_true in Hc.
  - intros H c Hc. apply bool_decide_eq_true, H. by apply list_elem_of_In.
Qed.

Lemma filter_nil_none {A : Type} (P : A → Prop) `{!∀ x, Decision (P x)} (l : list A) :
  filter P l = [] → ∀ x, x ∈ l → ¬ P x.
Proof.
  intros Hnil x Hx HP.
  assert (Hin : x ∈ filter P l) by (by apply list_elem_of_filter).
  rewrite Hnil in Hin. by apply elem_of_nil in Hin.
Qed.

(** X21. The cards [getPlayableCards] returns are exactly the cards of the
    hand that its tests allow. On lead every card is allowed, except that
    a card whose suit is written ['♠'] is allowed only if a completed
    trick contains a card written so or every card of the hand is written
    so; a spade written ['S'] or ['Spades'], as the server deals it, is
    under no restriction. When following, the trick must have a first
    card, and a card is allowed if its suit is written as the suit of that
    card or the hand holds no card written so. *)
Theorem getPlayableCards_membership (game : Client.GameState)
    (hand : list Client.Card) (isLeadingTrick : bool) (card : Client.Card) :
  card ∈ Client.getPlayableCards game hand isLeadingTrick ↔
  card ∈ hand ∧
  if isLeadingTrick then
    Client.suit card = Client.spadeSymbol →
    Client.hasSpadeBeenPlayed game = true ∨
    ∀ c, c ∈ hand → Client.suit c = Client.spadeSymbol
  else
    ∃ led, head (Client.currentTrick game) = Some led ∧
           (Client.suit card = Client.suit led ∨
            ∀ c, c ∈ hand → Client.suit c ≠ Client.suit led).
Proof.
  unfold Client.getPlayableCards.
  destruct hand as [|c0 hand0] eqn:Hhand.
  { split; [by intros H%elem_of_nil|]. by intros [H%elem_of_nil _]. }
  rewrite <- Hhand. clear Hhand.
  destruct isLeadingTrick.
  - unfold Client.canLeadSpades.
    pose proof (forallb_isSpade hand) as Hall.
    destruct (Client.hasSpadeBeenPlayed game); simpl.
    { split; [intros Hin; split; [done|]; by left|by intros [Hin _]]. }
    destruct (forallb Client.isSpade hand) eqn:Hspades; simpl.
    { split; [intros Hin; split; [done|]; intros _; right; by apply Hall
             |by intros [Hin _]]. }
    assert (Hmixed : ¬ ∀ c, c ∈ hand → Client.suit c = Client.spadeSymbol).
    { intros Hno. apply Hall in Hno. discriminate Hno. }
    destruct (filter (fun card0 => Client.suit card0 ≠ Client.spadeSymbol) hand)
      as [|n ns] eqn:Hfilter.
    + destruct Hmixed. intros c Hc.
      pose proof (filter_nil_none _ hand Hfilter c Hc) as Hn.
      by destruct (decide (Client.suit c = Client.spadeSymbol)).
    + rewrite <- Hfilter, list_elem_of_filter. split.
      * intros (Hne & Hin). split; [done|]. intros Hs. done.
      * intros (Hin & Hrule). split; [|done]. intros Hs.
        destruct (Hrule Hs) as [Hplayed|Hno]; [discriminate Hplayed|done].
  - unfold Client.getLeadSuit.
    destruct (head (Client.currentTrick game)) as [led|]; simpl.
    2:{ split; [by intros H%elem_of_nil|]. intros (_ & led & Hled & _). discriminate Hled. }
    destruct (filter (fun card0 => Client.suit card0 = Client.suit led) hand)
      as [|n ns] eqn:Hfilter.
    + split.
      * intros Hin. split; [done|]. exists led. split; [done|]. right.
        by apply (filter_nil_none _ hand Hfilter).
      * by intros [Hin _].
    + rewrite <- Hfilter, list_elem_of_filter. split.
      * intros (Hs & Hin). split; [done|]. exists led. split; [done|]. by left.
      * intros (Hin & led' & [= <-] & [Hs|Hvoid]); [done|].
        assert (Hn : n ∈ filter (fun card0 => Client.suit card0 = Client.suit led) hand).
        { rewrite Hfilter. by left. }
        apply list_elem_of_filter in Hn as (Hns & Hnin). by destruct (Hvoid n Hnin).
Qed.

(** On lead with no spade played, a hand in the server's spelling may
    lead its spade, and the same hand written with symbols may not. *)
Example getPlayableCards_spellings :
  let lettered := [Client.mkCard (Client.spelt Spades Client.Letter) R2;
                   Client.mkCard (Client.spelt Hearts Client.Letter) R5] in
  let symbols := [Client.mkCard (Client.spelt Spades Client.Symbol) R2;
                  Client.mkCard (Client.spelt Hearts Client.Symbol) R5] in
  Client.getPlayableCards (Client.mkState [] []) lettered true = lettered ∧
  Client.getPlayableCards (Client.mkState [] []) symbols true
  = [Client.mkCard (Client.spelt Hearts Client.Symbol) R5].
Proof. split; reflexivity. Qed.

(** X22. A player who holds a card always has a card to play: on lead, or
    when the trick in progress has a first card, [getPlayableCards] of a
    non-empty hand is not empty. (Asked for the cards that may follow an
    empty trick, it returns none.) *)
Theorem getPlayableCards_never_stuck (game : Client.GameState)
    (hand : list Client.Card) (isLeadingTrick : bool) :
  hand ≠ [] →
  (isLeadingTrick = true ∨ Client.currentTrick game ≠ []) →
  Client.getPlayableCards game hand isLeadingTrick ≠ [] ∧
  Client.getPlayableCards (Client.mkState (Client.completedTricks game) []) hand false
  = [].
Proof.
  intros Hhand Hturn. split.
  - unfold Client.getPlayableCards.
    destruct hand as [|c0 hand0] eqn:Hh; [done|]. rewrite <- Hh.
    assert (Hne : hand ≠ []) by (by rewrite Hh).
    destruct isLeadingTrick.
    + repeat case_match; done.
    + destruct Hturn as [Hlead|Htrick]; [discriminate Hlead|].
      unfold Client.getLeadSuit.
      destruct (Client.currentTrick game) as [|led rest]; [done|]. simpl.
      case_match; done.
  - unfold Client.getPlayableCards. by destruct hand.
Qed.

(** Dan, who must follow the five of hearts, has his hearts to choose
    from. *)
Lemma getPlayableCards_never_stuck_example :
  Client.getPlayableCards
    (Client.mkState [] [Client.mkCard (Client.spelt Hearts Client.Letter) R5])
    [Client.mkCard (Client.spelt Spades Client.Letter) R3;
     Client.mkCard (Client.spelt Hearts Client.Letter) R2;
     Client.mkCard (Client.spelt Hearts Client.Letter) RA] false
  ≠ [].
Proof.
  apply (getPlayableCards_never_stuck
           (Client.mkState [] [Client.mkCard (Client.spelt Hearts Client.Letter) R5])
           [Client.mkCard (Client.spelt Spades Client.Letter) R3;
            Client.mkCard (Client.spelt Hearts Client.Letter) R2;
            Client.mkCard (Client.spelt Hearts Client.Letter) RA] false).
  - discriminate.
  - right. discriminate.
Defined.

(** ** Sorting the hand for display *)

Lemma suitOrder_inj s1 s2 : TableUi.suitOrder s1 = TableUi.suitOrder s2 → s1 = s2.
Proof. destruct s1, s2; simpl; intros H; try reflexivity; discriminate H. Qed.

(** The comparator orders by the sort key. *)
Lemma compareCards_key a b :
  (TableUi.compareCards a b ≤ 0)%Z ↔ (sortKey a ≤ sortKey b)%Z.
Proof.
  unfold TableUi.compareCards, sortKey.
  pose proof (getCardValue_bounds (rank a)).
  pose proof (getCardValue_bounds (rank b)).
  case_bool_decide as Hs.
  - destruct (suit a), (suit b); simpl in *; lia.
  - rewrite Hs. lia.
Qed.

Lemma insertSorted_Permutation x l : TableUi.insertSorted x l ≡ₚ x :: l.
Proof.
  induction l as [|y l IH]; simpl; [done|].
  case_match; [done|]. rewrite IH. apply Permutation_swap.
Qed.

Lemma insertSorted_ascending x l :
  ascending l → ascending (TableUi.insertSorted x l).
Proof.
  induction l as [|y l IH]; simpl; [done|].
  intros (Hy & Hl).
  destruct (Z.leb_spec (TableUi.compareCards x y) 0) as [Hle|Hgt]; simpl.
  - apply compareCards_key in Hle. split; [|done].
    constructor; [done|].
    eapply Forall_impl; [exact Hy|]. simpl. intros z Hz. lia.
  - assert (Hyx : (sortKey y ≤ sortKey x)%Z).
    { destruct (Z.le_gt_cases (sortKey x) (sortKey y)) as [Hxy|Hxy]; [|lia].
      apply compareCards_key in Hxy. lia. }
    split; [|by apply IH].
    rewrite insertSorted_Permutation. by constructor.
Qed.

Lemma ascending_lookup l : ∀ i j a b,
  ascending l → i < j → l !! i = Some a → l !! j = Some b →
  (sortKey a ≤ sortKey b)%Z.
Proof.
  induction l as [|x l IH]; intros i j a b Hasc Hlt Ha Hb; [done|].
  destruct Hasc as (Hx & Hl).
  destruct i as [|i], j as [|j]; simpl in *; try lia.
  - injection Ha as <-. rewrite Forall_forall in Hx. apply Hx.
    by eapply list_elem_of_lookup_2.
  - apply (IH i j a b Hl); [lia|done|done].
Qed.

(** X23. [sortCards] returns the same cards in display order: the result
    is a permutation of the hand in which any card comes before any other
    card of a later suit (diamonds, clubs, hearts, spades) and before any
    card of the same suit that has a higher rank. *)
Theorem sortCards_sorted_permutation (cards : list Card) :
  TableUi.sortCards cards ≡ₚ cards ∧
  ∀ i j a b,
    i < j →
    TableUi.sortCards cards !! i = Some a →
    TableUi.sortCards cards !! j = Some b →
    (TableUi.suitOrder (suit a) < TableUi.suitOrder (suit b))%Z ∨
    (suit a = suit b ∧ (getCardValue (rank a) ≤ getCardValue (rank b))%Z).
Proof.
  assert (Hperm : TableUi.sortCards cards ≡ₚ cards).
  { unfold TableUi.sortCards. induction cards as [|x l IH]; simpl; [done|].
    by rewrite insertSorted_Permutation, IH. }
  assert (Hasc : ascending (TableUi.sortCards cards)).
  { unfold TableUi.sortCards. induction cards as [|x l IH]; simpl; [done|].
    apply insertSorted_ascending, IH.
    unfold TableUi.sortCards in Hperm. simpl in Hperm.
    rewrite insertSorted_Permutation in Hperm.
    by apply Permutation_cons_inv in Hperm. }
  split; [exact Hperm|].
  intros i j a b Hlt Ha Hb.
  pose proof (ascending_lookup _ i j a b Hasc Hlt Ha Hb) as Hkey.
  unfold sortKey in Hkey.
  pose proof (getCardValue_bounds (rank a)).
  pose proof (getCardValue_bounds (rank b)).
  destruct (decide (suit a = suit b)) as [Heq|Hne].
  - right. split; [done|]. rewrite Heq in Hkey. lia.
  - left. destruct (suit a), (suit b); simpl in *; try done; lia.
Qed.

(** ** The invitation offered before the game *)

Lemma sanitized_first ps :
  hasType bot (default None (ps !! 0)) = false →
  TableUi.sanitized ps !! 0 = ps !! 0.
Proof.
  unfold TableUi.sanitized. destruct ps as [|x ps]; simpl; [done|].
  intros Hx. rewrite filter_cons_True; [done|]. by rewrite Hx.
Qed.

(** X24. Before the game the client offers the invitation exactly when
    the server will grant it: at a table whose seat 0 is not held by a
    bot, for an empty seat among 0..3, [canInviteBot] is true if and only
    if the requester has an identity and [invite-bot] seats the bot. *)
Theorem pregame_invite_offer_matches_server (g : Game) (currentPlayerId uuid : string)
    (position : nat) :
  position < 4 → seatEmpty g position →
  hasType bot (default None (players g !! 0)) = false →
  TableUi.canInviteBot g currentPlayerId position true (TableUi.sanitized (players g))
  = true ↔
  currentPlayerId ≠ "" ∧
  succeeded (inviteBot g (Z.of_nat position) (Some currentPlayerId) uuid).1.
Proof.
  intros Hlt Hempty Hhuman.
  unfold TableUi.canInviteBot, inviteBot.
  rewrite (sanitized_first _ Hhuman).
  pose proof (seatRefused_false g position Hlt) as Hseat.
  apply Hseat in Hempty. rewrite Hempty.
  assert (Hid : hasId currentPlayerId (default None (players g !! 0))
                = negb (notHost g (Some currentPlayerId))).
  { unfold notHost, seatAt. destruct (players g !! 0) as [[q|]|]; simpl; [|done..].
    destruct (decide (id q = currentPlayerId)) as [Hq|Hq].
    - rewrite bool_decide_eq_true_2, bool_decide_eq_false_2; [done| |done].
      intros Hn. destruct Hn. by rewrite Hq.
    - rewrite bool_decide_eq_false_2, bool_decide_eq_true_2; [done| |done].
      congruence. }
  rewrite Hid.
  pose proof succeeded_Failed as HFailed.
  case_bool_decide as Hme.
  { split; [discriminate|]. by intros [Hne _]. }
  destruct (bool_decide (status g = WAITING)); simpl.
  - destruct (notHost g (Some currentPlayerId)); simpl.
    + split; [discriminate|]. intros (_ & Hok). by apply HFailed in Hok.
    + split; [|done]. intros _. split; [done|apply succeeded_Sent].
  - rewrite andb_false_r. split; [discriminate|].
    intros (_ & Hok). by apply HFailed in Hok.
Qed.

(** At her new table Ann is offered the invitation for seat 2, and the
    server grants it. *)
Lemma pregame_invite_offer_example :
  TableUi.canInviteBot (createGame annSettings) "ann" 2 true
    (TableUi.sanitized (players (createGame annSettings))) = true ↔
  "ann" ≠ "" ∧ succeeded (inviteBot (createGame annSettings) 2 (Some "ann") "u1").1.
Proof.
  apply (pregame_invite_offer_matches_server (createGame annSettings) "ann" "u1" 2).
  - lia.
  - reflexivity.
  - reflexivity.
Defined.

(** ** Trick resolution does not depend on the order of the followers *)

(** Two cards that can win the trick and have the same strength have the
    same suit and rank. *)
Lemma strength_same_card led a b :
  contends led a → contends led b → strength led a = strength led b →
  suit a = suit b ∧ rank a = rank b.
Proof.
  intros Ha Hb. unfold strength.
  pose proof (getCardValue_bounds (rank a)).
  pose proof (getCardValue_bounds (rank b)).
  destruct Ha as [Ha|Ha], Hb as [Hb|Hb]; rewrite Ha, Hb;
    repeat case_bool_decide; try congruence; intros Heq; try lia;
    (split; [congruence|apply getCardValue_inj; lia]).
Qed.

Lemma NoDup_fmap_same {A B : Type} (f : A → B) (l : list A) (x y : A) :
  NoDup (f <$> l) → x ∈ l → y ∈ l → f x = f y → x = y.
Proof.
  induction l as [|z l IH]; simpl; intros Hnd Hx Hy Hf.
  - by apply elem_of_nil in Hx.
  - apply NoDup_cons in Hnd as (Hz & Hnd).
    apply elem_of_cons in Hx as [->|Hx], Hy as [->|Hy]; try done.
    + destruct Hz. rewrite Hf. by apply list_elem_of_fmap_2.
    + destruct Hz. rewrite <- Hf. by apply list_elem_of_fmap_2.
    + by apply IH.
Qed.

(** X25. The winner of a trick does not depend on the order in which the
    cards after the first were played: for a trick whose cards differ
    pairwise in suit or rank, rearranging the followers leaves the result
    of [determineTrickWinner] unchanged. *)
Theorem determineTrickWinner_order_of_followers (led : Card) (rest1 rest2 : list Card) :
  rest1 ≡ₚ rest2 →
  NoDup ((fun c => (suit c, rank c)) <$> led :: rest1) →
  determineTrickWinner (led :: rest1) = determineTrickWinner (led :: rest2).
Proof.
  intros Hperm Hnd. unfold determineTrickWinner. do 2 f_equal.
  destruct (winningCardFrom_max (suit led) (led :: rest1) led)
    as (Hc1 & Hin1 & _ & Hmax1); [by right|].
  destruct (winningCardFrom_max (suit led) (led :: rest2) led)
    as (Hc2 & Hin2 & _ & Hmax2); [by right|].
  set (w1 := winningCardFrom led (led :: rest1)) in *.
  set (w2 := winningCardFrom led (led :: rest2)) in *.
  assert (Hw1 : w1 ∈ led :: rest1) by (destruct Hin1 as [->|?]; [by left|done]).
  assert (Hw2 : w2 ∈ led :: rest2) by (destruct Hin2 as [->|?]; [by left|done]).
  assert (Hw2' : w2 ∈ led :: rest1) by (by rewrite Hperm).
  assert (Hw1' : w1 ∈ led :: rest2) by (by rewrite <- Hperm).
  pose proof (Hmax1 w2 Hw2'). pose proof (Hmax2 w1 Hw1').
  destruct (strength_same_card (suit led) w1 w2 Hc1 Hc2) as (Hs & Hr); [lia|].
  assert (Hsame : w1 = w2); [|by rewrite Hsame].
  apply (NoDup_fmap_same (fun c => (suit c, rank c)) (led :: rest1)); try done.
  simpl. by rewrite Hs, Hr.
Qed.

(** The specification's club trick with its followers in another order. *)
Lemma determineTrickWinner_order_example :
  determineTrickWinner exampleClubsTrick
  = determineTrickWinner
      [mkCard Clubs R4 (Some 0); mkCard Clubs R2 (Some 3);
       mkCard Clubs R9 (Some 1); mkCard Spades RK (Some 2)].
Proof.
  apply (determineTrickWinner_order_of_followers (mkCard Clubs R4 (Some 0))).
  - etrans; [apply Permutation_skip, Permutation_swap|apply Permutation_swap].
  - apply (bool_decide_unpack _). vm_compute. exact I.
Defined.

(** ** Examples of the last bid and of the game-over check *)

(** Dealt by Bob (seat 1), the fourth bid hands over to trick play with
    Cat (seat 2) as leader. *)
Lemma make_bid_last_bid_example :
  ∃ g', make_bid (reached (createGame annSettings)
                    (seatOthers ++ startWithDealer 1
                     ++ [OpMakeBid "cat" 3; OpMakeBid "dan" 2; OpMakeBid "ann" 4]) 0)
                 "bob" 3
        = Some (Emitted ["bidding_complete"; "play_start"], g') ∧
        play g' = Some (mkPlay 2 [] [] 0).
Proof.
  set (g := reached (createGame annSettings)
              (seatOthers ++ startWithDealer 1
               ++ [OpMakeBid "cat" 3; OpMakeBid "dan" 2; OpMakeBid "ann" 4]) 0).
  destruct (make_bid_last_bid g "bob" 3
              (mkBidding 1 [Some 4; None; Some 3; Some 2]%Z) 1 1) as (_ & Hok);
    try (vm_compute; reflexivity); [lia|].
  eexists. split; [apply Hok; [lia|vm_compute; by eexists]|reflexivity].
Defined.

(** Scoring the finished hand of the example game, in which team 1 bid
    fifteen and took two tricks (-150), ends the game. *)
Lemma completeHand_status_example :
  status (completeHand
            (setStatus BIDDING
               (reached (createGame annSettings) (dealtAndBid 8 5 7 3) 52))).2
  = COMPLETED.
Proof.
  rewrite (completeHand_status _ (Summary.mk (-150) 83 0 3 [1; 10; 1; 1]%Z)).
  - vm_compute. reflexivity.
  - vm_compute. reflexivity.
Defined.

(** ** The invitation offered after the start *)

(** X28. Once a game has started, the client never offers to invite a bot:
    in every state reached whose status is not WAITING, [canInviteBot],
    called as the table does with [isPreGame] the test [status ===
    'WAITING'], is false for every requester, every seat and every array of
    players, because it asks for the status PLAYING, which no game ever
    has. *)
Theorem midgame_invite_never_offered (settings : Settings) (ops : list Op) :
  ∃ g, run (createGame settings) ops = Some g ∧
       (status g ≠ WAITING →
        ∀ currentPlayerId seatIndex sanitizedPlayers,
          TableUi.canInviteBot g currentPlayerId seatIndex
            (bool_decide (status g = WAITING)) sanitizedPlayers = false).
Proof.
  destruct (run_invariants settings ops) as (g & Hrun & _ & Hsh).
  exists g. split; [exact Hrun|]. intros Hstarted who seat ps.
  unfold TableUi.canInviteBot.
  rewrite (bool_decide_eq_false_2 (status g = WAITING)) by done.
  rewrite (bool_decide_eq_false_2 (status g = PLAYING)) by apply (sh_status g Hsh).
  case_bool_decide; [done|]. apply andb_false_r.
Qed.
